(** * MQPL: project aggregate, notification dispatch and critical path

    A shallow embedding of [MQPL.py].  Every method keeps the name it has in
    the source, inside a module named after its class.

    - [Tache] objects are hashed by identity (they key the [memo] dictionary)
      and refer to each other, possibly in cycles: they live in an object
      store indexed by address, and a task list is a list of addresses.
    - [Tache.__init__] keeps the list object it is handed and
      [ajouter_dependance] appends to it in place: a task records which list
      object it holds, and an append reaches every task that holds it.
    - [Membre], [Jalon], [Risque] and [Changement] are only stored and read:
      they are records carried by value.
    - A method of [Projet] takes the project and returns the project it has
      become, together with the trace of the [envoyer_message] calls it made;
      each call records what it printed.
    - [find_longest_path] recurses on the predecessors with no guard against
      cycles, so it takes a bound on the recursion depth; the interpreter's own
      recursion limit is not modelled.
    - [datetime] arithmetic and [str] are modelled after the standard library;
      [str] of a float is a parameter ([Runtime]). *)

From Stdlib Require Import ZArith String Ascii List Lia PrimFloat.
From stdpp Require Import gmap strings pretty relations.

Open Scope Z_scope.

(** ** Results of running Python code *)

(** The only exception the program can raise by itself. *)
Inductive exception :=
  | ValueError.   (* max() arg is an empty sequence *)

(** Outcome of a call: a value, a raised exception, a recursion deeper than
    the bound [fuel] handed to the call, or the dereference of an address
    that holds no object (impossible in Python, where a reference always
    denotes a live object; ruled out by the store being closed). *)
Inductive res (A : Type) :=
  | Ret (a : A)
  | Raise (e : exception)
  | OutOfFuel
  | Dangling.
Arguments Ret {A} a.
Arguments Raise {A} e.
Arguments OutOfFuel {A}.
Arguments Dangling {A}.

#[global] Instance res_ret : MRet res := fun _ a => Ret a.
#[global] Instance res_bind : MBind res := fun _ _ f m =>
  match m with
  | Ret a => f a
  | Raise e => Raise e
  | OutOfFuel => OutOfFuel
  | Dangling => Dangling
  end.

Definition terminates {A} (r : res A) : Prop :=
  (exists a, r = Ret a) \/ (exists e, r = Raise e).

(** Reading an object out of a store. *)
Definition deref {V} (h : gmap nat V) (a : nat) : res V :=
  match h !! a with
  | Some v => Ret v
  | None => Dangling
  end.

(** ** The Python runtime *)

(** [str] of a float (the shortest decimal that reads back to the same
    float) belongs to the interpreter, not to the program: it is a parameter
    of the development. *)
Class Runtime := { repr_float : float -> string }.

(** [str] of an [int]. *)
Definition str_int (z : Z) : string := pretty z.

(** ["%0<width>d" % z] for a non-negative [z]. *)
Definition zfill (width : nat) (z : Z) : string :=
  let s := str_int z in
  String.concat "" (replicate (width - String.length s) "0"%string) +:+ s.

(** Naive [datetime.datetime] values (no [tzinfo]), with the part of the
    standard library's arithmetic the program relies on: subtraction and the
    [days] attribute of the resulting [timedelta], and [str]. *)
Module datetime.
Record t := mk {
  year : Z; month : Z; day : Z;
  hour : Z; minute : Z; second : Z; microsecond : Z }.

(** [datetime(year, month, day)] *)
Definition make (y m d : Z) : t := mk y m d 0 0 0 0.

Definition is_leap (y : Z) : bool :=
  (y mod 4 =? 0) && (negb (y mod 100 =? 0) || (y mod 400 =? 0)).

Definition days_before_year (y : Z) : Z :=
  let y := y - 1 in y * 365 + y / 4 - y / 100 + y / 400.

Definition DAYS_BEFORE_MONTH : list Z :=
  [0; 31; 59; 90; 120; 151; 181; 212; 243; 273; 304; 334].

Definition days_before_month (y m : Z) : Z :=
  nth (Z.to_nat (m - 1)) DAYS_BEFORE_MONTH 0
  + (if (2 <? m) && is_leap y then 1 else 0).

Definition toordinal (d : t) : Z :=
  days_before_year (year d) + days_before_month (year d) (month d) + day d.

Definition seconds_of_day (d : t) : Z :=
  second d + minute d * 60 + hour d * 3600.

(** [(a - b).days]: the difference is normalised so that its seconds and
    microseconds are non-negative; the carries go into the days. *)
Definition sub_days (a b : t) : Z :=
  let us := microsecond a - microsecond b in
  let s := seconds_of_day a - seconds_of_day b + us / 1000000 in
  toordinal a - toordinal b + s / 86400.

(** [str(d)], that is [d.isoformat(sep=' ')]. *)
Definition str (d : t) : string :=
  zfill 4 (year d) +:+ "-" +:+ zfill 2 (month d) +:+ "-" +:+ zfill 2 (day d)
  +:+ " " +:+ zfill 2 (hour d) +:+ ":" +:+ zfill 2 (minute d)
  +:+ ":" +:+ zfill 2 (second d)
  +:+ (if microsecond d =? 0 then "" else "." +:+ zfill 6 (microsecond d)).
End datetime.

(** ** Plain data classes *)

Module Membre.
Record t := mk { nom : string; role : string }.
End Membre.

Module Jalon.
Record t := mk { nom : string; date : datetime.t }.
End Jalon.

Module Risque.
Record t := mk { description : string; probabilite : float; impact : string }.
End Risque.

Module Changement.
Record t := mk { description : string; version : Z; date : datetime.t }.

(** [Changement(description, version)]; [maintenant] is what
    [datetime.now()] answers during the call. *)
Definition init (description : string) (version : Z) (maintenant : datetime.t) : t :=
  mk description version maintenant.
End Changement.

(** ** Tasks and the object store *)

(** A [Tache] object.  [self.dependances] is a reference to a list object,
    which several tasks may hold: [liste] is the identity of that list object,
    and [dependances] its contents, the addresses of the predecessor objects in
    the order of the Python list.  Two tasks with the same [liste] hold one and
    the same list. *)
Module Tache.
Record t := mk {
  nom : string;
  description : string;
  date_debut : datetime.t;
  date_fin : datetime.t;
  responsable : Membre.t;
  statut : string;
  liste : nat;
  dependances : list nat }.

(** [Tache(nom, ..., dependances=None)].  [dependances] is the list object
    the caller hands over, as its identity and its contents; [nouvelle] is the
    identity of the list that [[]] creates.  [dependances or []] keeps the
    caller's object when it is a non-empty list, and is the new empty list
    when the caller gave [None] or an empty list. *)
Definition init (nom description : string) (date_debut date_fin : datetime.t)
    (responsable : Membre.t) (statut : string)
    (dependances : option (nat * list nat)) (nouvelle : nat) : t :=
  match dependances with
  | Some (l, d :: ds) =>
      mk nom description date_debut date_fin responsable statut l (d :: ds)
  | Some (_, []) | None =>
      mk nom description date_debut date_fin responsable statut nouvelle []
  end.

(** [(self.date_fin - self.date_debut).days] *)
Definition jours (T : t) : Z := datetime.sub_days (date_fin T) (date_debut T).

(** The list [l] after [l.append(tache)], as a task that holds it sees it. *)
Definition append (tache : nat) (U : t) : t :=
  mk (nom U) (description U) (date_debut U) (date_fin U) (responsable U)
     (statut U) (liste U) (dependances U ++ [tache]).

(** [self.dependances.append(tache)], on the object at address [self]: the
    list object is modified in place, so every task that holds it, [self]
    among them, has [tache] as its new last predecessor. *)
Definition ajouter_dependance (self tache : nat) (h : gmap nat t) : res (gmap nat t) :=
  T ← deref h self;
  Ret ((fun U => if decide (liste U = liste T) then append tache U else U) <$> h).

(** [self.statut = statut] *)
Definition mettre_a_jour_statut (self : nat) (s : string) (h : gmap nat t) : res (gmap nat t) :=
  T ← deref h self;
  Ret (<[self := mk (nom T) (description T) (date_debut T) (date_fin T)
                    (responsable T) s (liste T) (dependances T)]> h).
End Tache.

(** The store of [Tache] objects: address (object identity) to object. *)
Abbreviation tas := (gmap nat Tache.t) (only parsing).

(** [partage h s t]: the tasks at [s] and [t] hold the same list object. *)
Definition partage (h : tas) (s t : nat) : Prop :=
  exists S T, h !! s = Some S /\ h !! t = Some T /\ Tache.liste S = Tache.liste T.

(** Tasks that hold the same list object show the same contents. *)
Definition partage_coherent (h : tas) : Prop :=
  forall a b A B, h !! a = Some A -> h !! b = Some B ->
    Tache.liste A = Tache.liste B -> Tache.dependances A = Tache.dependances B.

(** [arete h t d]: the object at [t] lists [d] among its [dependances]. *)
Definition arete (h : tas) (t d : nat) : Prop :=
  exists T, h !! t = Some T /\ d ∈ Tache.dependances T.

(** Every reference held by an object of the store denotes an object. *)
Definition tas_clos (h : tas) : Prop :=
  forall t d, arete h t d -> is_Some (h !! d).

(** No task precedes itself, directly or through a chain of predecessors. *)
Definition acyclique (h : tas) : Prop :=
  forall t, ~ tc (arete h) t t.

(** ** Team *)

Module Equipe.
Record t := mk { membres : list Membre.t }.

Definition init : t := mk [].

Definition ajouter_membre (membre : Membre.t) (self : t) : t :=
  mk (membres self ++ [membre]).

Definition obtenir_membres (self : t) : list Membre.t := membres self.
End Equipe.

(** ** Notification strategies *)

(** One call of [envoyer_message], with what the call printed.  The trace
    of these events is both the standard output of the program and the record
    of which deliveries took place. *)
Module Envoi.
Record t := mk {
  message : string;
  destinataire : Membre.t;
  sortie : list string }.
End Envoi.

(** The abstract class: one method, [envoyer_message(message, destinataire)],
    whose effect is the lines it prints. *)
Record NotificationStrategy := {
  envoyer_message : string -> Membre.t -> list string }.

Definition EmailNotificationStrategy : NotificationStrategy :=
  {| envoyer_message message destinataire :=
       ["Notification envoyée à " +:+ Membre.nom destinataire
        +:+ " par email: " +:+ message] |}.

Definition SMSNotificationStrategy : NotificationStrategy :=
  {| envoyer_message message destinataire :=
       ["Notification envoyée à " +:+ Membre.nom destinataire
        +:+ " par SMS: " +:+ message] |}.

Definition PushNotificationStrategy : NotificationStrategy :=
  {| envoyer_message message destinataire :=
       ["Notification envoyée à " +:+ Membre.nom destinataire
        +:+ " par Push: " +:+ message] |}.

Module NotificationContext.
Record t := mk { strategy : NotificationStrategy }.

Definition init (strategy : NotificationStrategy) : t := mk strategy.

Definition set_notification_strategy (strategy : NotificationStrategy) (self : t) : t :=
  mk strategy.

(** [for destinataire in destinataires: self.strategy.envoyer_message(...)] *)
Fixpoint notifier (self : t) (message : string) (destinataires : list Membre.t)
    : list Envoi.t :=
  match destinataires with
  | [] => []
  | destinataire :: suite =>
      Envoi.mk message destinataire
               (envoyer_message (strategy self) message destinataire)
      :: notifier self message suite
  end.
End NotificationContext.

(** ** Critical path *)

(** The state threaded through [find_longest_path]: the [memo] dictionary,
    keyed by object identity, whose entries are the pairs
    [(total_length, path)], and a ghost log [evalues] of the tasks whose entry
    was computed (a call answered from [memo] logs nothing). *)
Record etat := mk_etat {
  memo : gmap nat (Z * list nat);
  evalues : list nat }.

Definition etat_initial : etat := mk_etat ∅ [].

(** [memo[tache] = r], logging the computation of [tache]. *)
Definition memoriser (tache : nat) (r : Z * list nat) (st : etat) : etat :=
  mk_etat (<[tache := r]> (memo st)) (evalues st ++ [tache]).

(** The [for dep in tache.dependances] loop, lines 160 to 164; [appel] is
    the recursive call. *)
Fixpoint boucle_dependances (appel : nat -> etat -> res ((Z * list nat) * etat))
    (deps : list nat) (max_length : Z) (max_path : list nat) (st : etat)
    : res (Z * list nat * etat) :=
  match deps with
  | [] => Ret (max_length, max_path, st)
  | dep :: suite =>
      r ← appel dep st;
      let '((dep_length, dep_path), st) := r in
      if dep_length >? max_length
      then boucle_dependances appel suite dep_length dep_path st
      else boucle_dependances appel suite max_length max_path st
  end.

(** [find_longest_path(tache, memo)], with at most [fuel] nested calls. *)
Fixpoint find_longest_path (fuel : nat) (h : tas) (tache : nat) (st : etat)
    : res ((Z * list nat) * etat) :=
  match fuel with
  | O => OutOfFuel
  | S fuel =>
      match memo st !! tache with
      | Some r => Ret (r, st)
      | None =>
          T ← deref h tache;
          match Tache.dependances T with
          | [] =>
              let r := (0, [tache]) in
              Ret (r, memoriser tache r st)
          | deps =>
              b ← boucle_dependances (find_longest_path fuel h) deps 0 [] st;
              let '(max_length, max_path, st) := b in
              let total_length := max_length + Tache.jours T in
              let r := (total_length, max_path ++ [tache]) in
              Ret (r, memoriser tache r st)
          end
      end
  end.

(** [[find_longest_path(tache, memo) for tache in self.taches]] *)
Fixpoint all_paths (fuel : nat) (h : tas) (taches : list nat) (st : etat)
    : res (list (Z * list nat) * etat) :=
  match taches with
  | [] => Ret ([], st)
  | tache :: suite =>
      r ← find_longest_path fuel h tache st;
      let '(e, st) := r in
      rs ← all_paths fuel h suite st;
      let '(es, st) := rs in
      Ret (e :: es, st)
  end.

(** [max(l, key=key)]: the first of the elements with the greatest key
    (the running maximum is replaced only by a strictly greater key);
    [ValueError] on an empty list. *)
Definition py_max {A} (key : A -> Z) (l : list A) : res A :=
  match l with
  | [] => Raise ValueError
  | x :: l =>
      Ret (fold_left (fun best y => if key y >? key best then y else best) l x)
  end.

(** ** The project aggregate *)

Module Projet.
Record t := mk {
  nom : string;
  description : string;
  date_debut : datetime.t;
  date_fin : datetime.t;
  budget : float;
  taches : list nat;
  equipe : Equipe.t;
  risques : list Risque.t;
  jalons : list Jalon.t;
  version : Z;
  changements : list Changement.t;
  chemin_critique : list nat;
  notification_context : option NotificationContext.t }.

(** [Projet(nom, description, date_debut, date_fin)] *)
Definition init (nom description : string) (date_debut date_fin : datetime.t) : t :=
  mk nom description date_debut date_fin 0%float [] Equipe.init [] [] 1 [] [] None.

(** Assignments to one attribute of [self]. *)
Definition set_budget (v : float) (p : t) : t :=
  mk (nom p) (description p) (date_debut p) (date_fin p) v (taches p)
     (equipe p) (risques p) (jalons p) (version p) (changements p)
     (chemin_critique p) (notification_context p).
Definition set_taches (v : list nat) (p : t) : t :=
  mk (nom p) (description p) (date_debut p) (date_fin p) (budget p) v
     (equipe p) (risques p) (jalons p) (version p) (changements p)
     (chemin_critique p) (notification_context p).
Definition set_equipe (v : Equipe.t) (p : t) : t :=
  mk (nom p) (description p) (date_debut p) (date_fin p) (budget p) (taches p)
     v (risques p) (jalons p) (version p) (changements p)
     (chemin_critique p) (notification_context p).
Definition set_risques (v : list Risque.t) (p : t) : t :=
  mk (nom p) (description p) (date_debut p) (date_fin p) (budget p) (taches p)
     (equipe p) v (jalons p) (version p) (changements p)
     (chemin_critique p) (notification_context p).
Definition set_jalons (v : list Jalon.t) (p : t) : t :=
  mk (nom p) (description p) (date_debut p) (date_fin p) (budget p) (taches p)
     (equipe p) (risques p) v (version p) (changements p)
     (chemin_critique p) (notification_context p).
Definition set_version (v : Z) (p : t) : t :=
  mk (nom p) (description p) (date_debut p) (date_fin p) (budget p) (taches p)
     (equipe p) (risques p) (jalons p) v (changements p)
     (chemin_critique p) (notification_context p).
Definition set_changements (v : list Changement.t) (p : t) : t :=
  mk (nom p) (description p) (date_debut p) (date_fin p) (budget p) (taches p)
     (equipe p) (risques p) (jalons p) (version p) v
     (chemin_critique p) (notification_context p).
Definition set_chemin_critique (v : list nat) (p : t) : t :=
  mk (nom p) (description p) (date_debut p) (date_fin p) (budget p) (taches p)
     (equipe p) (risques p) (jalons p) (version p) (changements p)
     v (notification_context p).
Definition set_notification_context (v : option NotificationContext.t) (p : t) : t :=
  mk (nom p) (description p) (date_debut p) (date_fin p) (budget p) (taches p)
     (equipe p) (risques p) (jalons p) (version p) (changements p)
     (chemin_critique p) v.

(** [self.notifier(message)]: nothing happens while
    [self.notification_context] is [None]. *)
Definition notifier (message : string) (self : t) : list Envoi.t :=
  match notification_context self with
  | Some ctx =>
      NotificationContext.notifier ctx message (Equipe.membres (equipe self))
  | None => []
  end.

Definition set_notification_strategy (strategy : NotificationStrategy) (self : t) : t :=
  set_notification_context (Some (NotificationContext.init strategy)) self.

(** Each mutating method returns the updated project and the deliveries
    it made. *)
Definition ajouter_tache (h : tas) (tache : nat) (self : t) : res (t * list Envoi.t) :=
  let self := set_taches (taches self ++ [tache]) self in
  T ← deref h tache;
  Ret (self, notifier ("Nouvelle tâche ajoutée: " +:+ Tache.nom T) self).

Definition ajouter_membre_equipe (membre : Membre.t) (self : t) : t * list Envoi.t :=
  let self := set_equipe (Equipe.ajouter_membre membre (equipe self)) self in
  (self, notifier (Membre.nom membre +:+ " a été ajouté à l'équipe") self).

Definition definir_budget `{Runtime} (budget : float) (self : t) : t * list Envoi.t :=
  let self := set_budget budget self in
  (self, notifier ("Le budget du projet a été défini à "
                   +:+ repr_float (Projet.budget self)
                   +:+ " Unité Monétaire") self).

Definition ajouter_risque (risque : Risque.t) (self : t) : t * list Envoi.t :=
  let self := set_risques (risques self ++ [risque]) self in
  (self, notifier ("Nouveau risque ajouté: " +:+ Risque.description risque) self).

Definition ajouter_jalon (jalon : Jalon.t) (self : t) : t * list Envoi.t :=
  let self := set_jalons (jalons self ++ [jalon]) self in
  (self, notifier ("Nouveau jalon ajouté: " +:+ Jalon.nom jalon) self).

(** The text announced by [enregistrer_changement]. *)
Definition message_changement (description : string) (version : Z) : string :=
  "Changement enregistré: " +:+ description
  +:+ " (version " +:+ str_int version +:+ ")".

Definition enregistrer_changement (description : string) (maintenant : datetime.t)
    (self : t) : t * list Envoi.t :=
  let changement := Changement.init description (version self) maintenant in
  let self := set_changements (changements self ++ [changement]) self in
  let self := set_version (version self + 1) self in
  (self, notifier (message_changement description (version self)) self).

(** [calculer_chemin_critique], with recursion depth bounded by [fuel].
    When it raises, no attribute of [self] has been assigned. *)
Definition calculer_chemin_critique (fuel : nat) (h : tas) (self : t) : res t :=
  let memo := etat_initial in
  r ← all_paths fuel h (taches self) memo;
  best ← py_max fst r.1;
  Ret (set_chemin_critique best.2 self).

Definition nl : string := String (ascii_of_nat 10) EmptyString.

(** The five [for] loops of [generer_rapport], each appending its lines
    to [rapport]. *)
Fixpoint rapport_equipe (membres : list Membre.t) (rapport : string) : string :=
  match membres with
  | [] => rapport
  | membre :: suite =>
      rapport_equipe suite
        (rapport +:+ "- " +:+ Membre.nom membre
         +:+ " (" +:+ Membre.role membre +:+ ")" +:+ nl)
  end.

Fixpoint rapport_taches (h : tas) (taches : list nat) (rapport : string) : res string :=
  match taches with
  | [] => Ret rapport
  | tache :: suite =>
      T ← deref h tache;
      rapport_taches h suite
        (rapport +:+ "- " +:+ Tache.nom T
         +:+ " (" +:+ datetime.str (Tache.date_debut T)
         +:+ " à " +:+ datetime.str (Tache.date_fin T)
         +:+ "), Responsable: " +:+ Membre.nom (Tache.responsable T)
         +:+ ", Statut: " +:+ Tache.statut T +:+ nl)
  end.

Fixpoint rapport_jalons (jalons : list Jalon.t) (rapport : string) : string :=
  match jalons with
  | [] => rapport
  | jalon :: suite =>
      rapport_jalons suite
        (rapport +:+ "- " +:+ Jalon.nom jalon
         +:+ " (" +:+ datetime.str (Jalon.date jalon) +:+ ")" +:+ nl)
  end.

Fixpoint rapport_risques `{Runtime} (risques : list Risque.t) (rapport : string) : string :=
  match risques with
  | [] => rapport
  | risque :: suite =>
      rapport_risques suite
        (rapport +:+ "- " +:+ Risque.description risque
         +:+ " (Probabilité: " +:+ repr_float (Risque.probabilite risque)
         +:+ ", Impact: " +:+ Risque.impact risque +:+ ")" +:+ nl)
  end.

Fixpoint rapport_chemin (h : tas) (chemin : list nat) (rapport : string) : res string :=
  match chemin with
  | [] => Ret rapport
  | tache :: suite =>
      T ← deref h tache;
      rapport_chemin h suite
        (rapport +:+ "- " +:+ Tache.nom T
         +:+ " (" +:+ datetime.str (Tache.date_debut T)
         +:+ " à " +:+ datetime.str (Tache.date_fin T) +:+ ")" +:+ nl)
  end.

(** [generer_rapport]: reads [self] and the tasks, assigns nothing. *)
Definition generer_rapport `{Runtime} (h : tas) (self : t) : res string :=
  let rapport := "Rapport d'activités du Projet '" +:+ nom self +:+ "':" +:+ nl in
  let rapport := rapport +:+ "Version: " +:+ str_int (version self) +:+ nl in
  let rapport := rapport +:+ "Dates: " +:+ datetime.str (date_debut self)
                 +:+ " à " +:+ datetime.str (date_fin self) +:+ nl in
  let rapport := rapport +:+ "Budget: " +:+ repr_float (budget self)
                 +:+ " Unité Monétaire" +:+ nl in
  let rapport := rapport +:+ "Équipe:" +:+ nl in
  let rapport := rapport_equipe (Equipe.membres (equipe self)) rapport in
  let rapport := rapport +:+ "Tâches:" +:+ nl in
  rapport ← rapport_taches h (taches self) rapport;
  let rapport := rapport +:+ "Jalons:" +:+ nl in
  let rapport := rapport_jalons (jalons self) rapport in
  let rapport := rapport +:+ "Risques:" +:+ nl in
  let rapport := rapport_risques (risques self) rapport in
  let rapport := rapport +:+ "Chemin Critique:" +:+ nl in
  rapport_chemin h (chemin_critique self) rapport.
End Projet.

(** ** The methods of [Projet] as labelled steps *)

(** A call of a public method of [Projet] with its arguments.  The clock
    reading taken by [Changement.__init__] is part of the label. *)
Inductive operation :=
  | SetNotificationStrategy (strategy : NotificationStrategy)
  | AjouterTache (tache : nat)
  | AjouterMembreEquipe (membre : Membre.t)
  | DefinirBudget (budget : float)
  | AjouterRisque (risque : Risque.t)
  | AjouterJalon (jalon : Jalon.t)
  | EnregistrerChangement (description : string) (maintenant : datetime.t)
  | CalculerCheminCritique
  | Notifier (message : string)
  | GenererRapport.

(** What a call leaves behind: the project afterwards, the deliveries made
    during the call, and the value returned ([None] for Python's [None]). *)
Record effet := mk_effet {
  apres : Projet.t;
  envois : list Envoi.t;
  retour : option string }.

Definition executer `{Runtime} (fuel : nat) (h : tas) (op : operation) (p : Projet.t)
    : res effet :=
  match op with
  | SetNotificationStrategy s =>
      Ret (mk_effet (Projet.set_notification_strategy s p) [] None)
  | AjouterTache tache =>
      r ← Projet.ajouter_tache h tache p; Ret (mk_effet r.1 r.2 None)
  | AjouterMembreEquipe membre =>
      let r := Projet.ajouter_membre_equipe membre p in Ret (mk_effet r.1 r.2 None)
  | DefinirBudget b =>
      let r := Projet.definir_budget b p in Ret (mk_effet r.1 r.2 None)
  | AjouterRisque risque =>
      let r := Projet.ajouter_risque risque p in Ret (mk_effet r.1 r.2 None)
  | AjouterJalon jalon =>
      let r := Projet.ajouter_jalon jalon p in Ret (mk_effet r.1 r.2 None)
  | EnregistrerChangement d maintenant =>
      let r := Projet.enregistrer_changement d maintenant p in
      Ret (mk_effet r.1 r.2 None)
  | CalculerCheminCritique =>
      p' ← Projet.calculer_chemin_critique fuel h p; Ret (mk_effet p' [] None)
  | Notifier message =>
      Ret (mk_effet p (Projet.notifier message p) None)
  | GenererRapport =>
      rapport ← Projet.generer_rapport h p; Ret (mk_effet p [] (Some rapport))
  end.

(** A sequence of calls, each on the project the previous one left. *)
Fixpoint derouler `{Runtime} (fuel : nat) (h : tas) (ops : list operation)
    (p : Projet.t) : res Projet.t :=
  match ops with
  | [] => Ret p
  | op :: suite => e ← executer fuel h op p; derouler fuel h suite (apres e)
  end.

(** The six methods that change the contents of the aggregate and announce
    the change. *)
Definition mutatrice (op : operation) : bool :=
  match op with
  | AjouterTache _ | AjouterMembreEquipe _ | DefinirBudget _
  | AjouterRisque _ | AjouterJalon _ | EnregistrerChangement _ _ => true
  | _ => false
  end.

(** ** The fixtures of [TestProjet] *)

Module TestProjet.
Definition modou : Membre.t := Membre.mk "Brahim" "Chef de projet".
Definition christian : Membre.t := Membre.mk "Pape" "Développeur".

(** [setUp] *)
Definition projet : Projet.t :=
  Projet.set_notification_strategy EmailNotificationStrategy
    (Projet.init "Nouveau Produit" "Développement d'un nouveau produit"
       (datetime.make 2024 1 1) (datetime.make 2024 12 31)).

Definition tache1 : Tache.t :=
  Tache.init "Analyse des besoins" "Description de l'analyse des besoins"
    (datetime.make 2024 1 1) (datetime.make 2024 1 31) modou "Terminée" None
    11.

(** [tache2] depends on [tache1], which the store below puts at address 1;
    its list [[tache1]] is the list object 12. *)
Definition tache2 : Tache.t :=
  Tache.init "Développement" "Description du développement"
    (datetime.make 2024 2 1) (datetime.make 2024 6 30) christian "Non démarrée"
    (Some (12%nat, [1%nat])) 13.

(** The two tasks of [test_calculer_chemin_critique], at addresses 1 and 2. *)
Definition tas_test : tas := <[2%nat := tache2]> (<[1%nat := tache1]> ∅).

(** [str] on the three floats that occur in the tests: [0.0], [50000.0]
    and [0.3], the double written [0x1.3333333333333p-2]. *)
Definition runtime : Runtime :=
  {| repr_float x :=
       if (x =? 50000)%float then "50000.0"%string
       else if (x =? 0x1.3333333333333p-2)%float then "0.3"%string
       else "0.0"%string |}.

(** The calls of [test_generer_rapport] up to the report, on the store that
    holds [tache1] at address 1. *)
Definition scenario : list operation :=
  [ AjouterMembreEquipe modou;
    AjouterMembreEquipe christian;
    AjouterTache 1;
    DefinirBudget 50000;
    AjouterRisque (Risque.mk "Retard de livraison" 0x1.3333333333333p-2 "Élevé");
    AjouterJalon (Jalon.mk "Phase 1 terminée" (datetime.make 2024 1 31));
    EnregistrerChangement "Changement de la portée du projet"
      (datetime.make 2024 1 1);
    CalculerCheminCritique ].

(** The project once both members have joined, as in
    [test_generer_rapport]. *)
Definition projet_equipe : Projet.t :=
  (Projet.ajouter_membre_equipe christian
     (Projet.ajouter_membre_equipe modou projet).1).1.

(** The project with both tasks registered and the critical path the
    program computes for them. *)
Definition projet_taches : Projet.t :=
  Projet.set_chemin_critique [2%nat] (Projet.set_taches [1%nat; 2%nat] projet).
End TestProjet.

(** ** Shapes of dependency graphs *)

(** [mauvais h t]: following predecessor references from [t] leads into a
    cycle. *)
Definition mauvais (h : tas) (t : nat) : Prop :=
  exists c, rtc (arete h) t c /\ tc (arete h) c c.

(** The diamond: [A] has no predecessor, [B] and [C] each have [A] as only
    predecessor, [D] has [B] then [C]. *)
Definition diamant (h : tas) (a b c d : nat) : Prop :=
  b <> c /\
  exists A B C D,
    h !! a = Some A /\ h !! b = Some B /\ h !! c = Some C /\ h !! d = Some D /\
    Tache.dependances A = [] /\ Tache.dependances B = [a] /\
    Tache.dependances C = [a] /\ Tache.dependances D = [b; c].

(** In the final memo, the path of [d] is the path of the winner among [b]
    and [c] followed by [d]; the winner is [c] when its length is strictly
    greater, [b] otherwise. *)
Definition chemin_par_le_gagnant (b c d : nat) (st : etat) : Prop :=
  forall lb pb lc pc ld pd,
    memo st !! b = Some (lb, pb) ->
    memo st !! c = Some (lc, pc) ->
    memo st !! d = Some (ld, pd) ->
    pd = (if lc >? lb then pc else pb) ++ [d].

(** Every task the report reads is in the store. *)
Definition rapport_lisible (h : tas) (p : Projet.t) : Prop :=
  forall t, t ∈ Projet.taches p ++ Projet.chemin_critique p -> is_Some (h !! t).

(** Every task an operation is handed is in the store. *)
Definition operation_valide (h : tas) (op : operation) : Prop :=
  match op with
  | AjouterTache tache => is_Some (h !! tache)
  | _ => True
  end.

(** [historique ops p]: [p] is what a newly constructed project has become
    after the calls [ops], in this order.  Objects may have been created or
    modified between two calls, so each call sees its own store; a call that
    raised has assigned nothing. *)
Inductive historique `{Runtime} : list operation -> Projet.t -> Prop :=
  | historique_init nom description date_debut date_fin :
      historique [] (Projet.init nom description date_debut date_fin)
  | historique_ret ops p fuel h op e :
      historique ops p ->
      executer fuel h op p = Ret e ->
      historique (ops ++ [op]) (apres e)
  | historique_raise ops p fuel h op exn :
      historique ops p ->
      executer fuel h op p = Raise exn ->
      historique (ops ++ [op]) p.

Definition est_set_notification_strategy (op : operation) : bool :=
  match op with
  | SetNotificationStrategy _ => true
  | _ => false
  end.

(** ** Sample graphs *)

Module Exemples.
Definition jour (j : Z) : datetime.t := datetime.make 2024 3 j.

(** A task named [nom] spanning days [debut] to [fin] of March 2024, built
    from the list object [liste] with contents [deps]. *)
Definition tache (liste : nat) (nom : string) (debut fin : Z) (deps : list nat)
    : Tache.t :=
  Tache.init nom "" (jour debut) (jour fin) TestProjet.modou "Non démarrée"
    (Some (liste, deps)) liste.

(** Diamonds with A, B, C, D at addresses 1 to 4, each with a list of its
    own; A, B and C last [ja], [jb] and [jc] days, D lasts five days. *)
Definition losange (ja jb jc : Z) : tas :=
  <[4%nat := tache 14 "D" 20 25 [2%nat; 3%nat]]>
    (<[3%nat := tache 13 "C" 10 (10 + jc) [1%nat]]>
       (<[2%nat := tache 12 "B" 10 (10 + jb) [1%nat]]>
          (<[1%nat := tache 11 "A" 1 (1 + ja) []]> ∅))).

(** [A], [B] and [C] each start and end on the same day. *)
Definition losange_nul : tas := losange 0 0 0.

(** [B] and [C] both last five days. *)
Definition losange_egal : tas := losange 7 5 5.

(** A task that lists itself as predecessor, as
    [t.ajouter_dependance(t)] produces. *)
Definition tas_boucle : tas := <[1%nat := tache 11 "A" 1 8 [1%nat]]> ∅.

(** [B] and [C], at addresses 2 and 3, built from one list object
    [deps = [A]]: [Tache("B", ..., dependances=deps)] and
    [Tache("C", ..., dependances=deps)]. *)
Definition tas_partage : tas :=
  <[3%nat := tache 7 "C" 10 15 [1%nat]]>
    (<[2%nat := tache 7 "B" 10 15 [1%nat]]>
       (<[1%nat := tache 11 "A" 1 8 []]> ∅)).

Definition projet_de (taches : list nat) : Projet.t :=
  Projet.set_taches taches
    (Projet.init "P" "" (datetime.make 2024 1 1) (datetime.make 2024 12 31)).
End Exemples.

(** ** Invariants of the memo table *)

(** No memoised task leads into a cycle. *)
Definition memo_sain (h : tas) (st : etat) : Prop :=
  forall x, is_Some (memo st !! x) -> ~ mauvais h x.

(** One turn of the loop over the predecessors: the running maximum is
    replaced only by a strictly longer entry. *)
Definition pas (acc r : Z * list nat) : Z * list nat :=
  if r.1 >? acc.1 then r else acc.

(** What the loop leaves in [(max_length, max_path)] after the entries [rs]. *)
Definition meilleur (rs : list (Z * list nat)) : Z * list nat :=
  fold_left pas rs (0, []).

(** Each memo entry is the one the algorithm derives from the entries of the
    predecessors, which are memoised too. *)
Definition memo_coherent (h : tas) (st : etat) : Prop :=
  forall x e T, memo st !! x = Some e -> h !! x = Some T ->
    match Tache.dependances T with
    | [] => e = (0, [x])
    | deps =>
        exists rs, Forall2 (fun d r => memo st !! d = Some r) deps rs /\
                   e = ((meilleur rs).1 + Tache.jours T, (meilleur rs).2 ++ [x])
    end.

(** The log of computed tasks lists the keys of the memo, each once. *)
Definition journal_exact (st : etat) : Prop :=
  NoDup (evalues st) /\ forall x, x ∈ evalues st <-> is_Some (memo st !! x).

Definition invariant (h : tas) (st : etat) : Prop :=
  memo_sain h st /\ memo_coherent h st /\ journal_exact st.

(** What a call on [t] from [st] guarantees when it returns [r] and [st']. *)
Definition appel_correct (h : tas) (t : nat) (st : etat) (r : Z * list nat) (st' : etat)
    : Prop :=
  invariant h st' /\
  (forall x e, memo st !! x = Some e -> memo st' !! x = Some e) /\
  memo st' !! t = Some r /\
  (forall x, is_Some (memo st' !! x) -> is_Some (memo st !! x) \/ rtc (arete h) t x).

(** ** What each mutating method changes *)

(** [changement_applique op p p']: [p'] holds the append or the overwrite
    that the call [op] is meant to perform on [p]. *)
Definition changement_applique (op : operation) (p p' : Projet.t) : Prop :=
  match op with
  | AjouterTache tache => Projet.taches p' = Projet.taches p ++ [tache]
  | AjouterMembreEquipe membre =>
      Equipe.membres (Projet.equipe p') = Equipe.membres (Projet.equipe p) ++ [membre]
  | DefinirBudget b => Projet.budget p' = b
  | AjouterRisque risque => Projet.risques p' = Projet.risques p ++ [risque]
  | AjouterJalon jalon => Projet.jalons p' = Projet.jalons p ++ [jalon]
  | EnregistrerChangement d maintenant =>
      Projet.changements p' =
        Projet.changements p ++ [Changement.mk d (Projet.version p) maintenant]
      /\ Projet.version p' = Projet.version p + 1
  | _ => True
  end.

(** The members a call of [op] on [p] leaves in the team. *)
Definition membres_apres (op : operation) (p : Projet.t) : list Membre.t :=
  match op with
  | AjouterMembreEquipe membre => Equipe.membres (Projet.equipe p) ++ [membre]
  | _ => Equipe.membres (Projet.equipe p)
  end.

(** The version a call of [op] on [p] leaves in the counter. *)
Definition version_apres (op : operation) (p : Projet.t) : Z :=
  match op with
  | EnregistrerChangement _ _ => Projet.version p + 1
  | _ => Projet.version p
  end.

(** Case analysis of an edge of a store given by explicit insertions. *)
Ltac aretes H :=
  let T := fresh "T" in
  let HT := fresh "HT" in
  let Hd := fresh "Hd" in
  destruct H as (T & HT & Hd);
  repeat (apply lookup_insert_Some in HT as [[<- <-]|[? HT]]);
  try (by rewrite lookup_empty in HT);
  simpl in Hd;
  repeat (apply elem_of_cons in Hd as [->|Hd]);
  try (by apply elem_of_nil in Hd).

(** ** Measures on memo entries *)

(** [precede h d t]: [d] is a predecessor of [t]. *)
Definition precede (h : tas) (d t : nat) : Prop := arete h t d.

(** Every memoised task is stored, and no chain of predecessors from it goes
    on for ever. *)
Definition memo_fonde (h : tas) (st : etat) : Prop :=
  forall x, is_Some (memo st !! x) -> is_Some (h !! x) /\ Acc (precede h) x.

(** Each task of a path is a predecessor of the next one. *)
Fixpoint chaine (h : tas) (path : list nat) : Prop :=
  match path with
  | x :: ((y :: _) as suite) => arete h y x /\ chaine h suite
  | _ => True
  end.

(** What a task adds to the length of a path through it: its span in days
    when it has predecessors, nothing when it has none. *)
Definition apport (h : tas) (x : nat) : Z :=
  match h !! x with
  | Some T =>
      match Tache.dependances T with
      | [] => 0
      | _ => Tache.jours T
      end
  | None => 0
  end.

Definition somme_apports (h : tas) (path : list nat) : Z :=
  foldr (fun x s => apport h x + s) 0 path.

(** The store is closed and acyclic and holds the tasks of the project. *)
Definition bien_pose (h : tas) (p : Projet.t) : Prop :=
  tas_clos h /\ acyclique h /\ forall t, t ∈ Projet.taches p -> is_Some (h !! t).

(** Two stores hold tasks at the same addresses, with the same predecessors
    and the same spans. *)
Definition memes_graphes (h h' : tas) : Prop :=
  forall a,
    match h !! a, h' !! a with
    | Some T, Some T' =>
        Tache.dependances T = Tache.dependances T' /\ Tache.jours T = Tache.jours T'
    | None, None => True
    | _, _ => False
    end.

(** The strategy handed to the last [set_notification_strategy] among
    [ops], if any. *)
Definition derniere_strategie (ops : list operation) : option NotificationStrategy :=
  fold_left (fun acc op =>
               match op with
               | SetNotificationStrategy s => Some s
               | _ => acc
               end) ops None.

(** The number of [enregistrer_changement] among [ops]. *)
Fixpoint nombre_changements (ops : list operation) : nat :=
  match ops with
  | [] => 0
  | EnregistrerChangement _ _ :: suite => S (nombre_changements suite)
  | _ :: suite => nombre_changements suite
  end.

(** A history with two bindings and two recorded changes, and the project
    it leaves. *)
Definition histoire_exemple : list operation :=
  [ AjouterMembreEquipe TestProjet.modou;
    SetNotificationStrategy SMSNotificationStrategy;
    EnregistrerChangement "x" (datetime.make 2024 1 1);
    SetNotificationStrategy PushNotificationStrategy;
    AjouterMembreEquipe TestProjet.christian;
    EnregistrerChangement "y" (datetime.make 2024 1 2) ].

Definition projet_neuf : Projet.t :=
  Projet.init "P" "" (datetime.make 2024 1 1) (datetime.make 2024 12 31).

Definition projet_histoire : Projet.t :=
  match @derouler TestProjet.runtime 0 ∅ histoire_exemple projet_neuf with
  | Ret p => p
  | _ => projet_neuf
  end.

(** ** The lines of the report *)

(** The lines [ls] one after the other. *)
Definition lignes (ls : list string) : string := foldr String.append "" ls.

Definition ligne_membre (membre : Membre.t) : string :=
  "- " +:+ Membre.nom membre +:+ " (" +:+ Membre.role membre +:+ ")" +:+ Projet.nl.

Definition ligne_tache (T : Tache.t) : string :=
  "- " +:+ Tache.nom T
  +:+ " (" +:+ datetime.str (Tache.date_debut T)
  +:+ " à " +:+ datetime.str (Tache.date_fin T)
  +:+ "), Responsable: " +:+ Membre.nom (Tache.responsable T)
  +:+ ", Statut: " +:+ Tache.statut T +:+ Projet.nl.

Definition ligne_jalon (jalon : Jalon.t) : string :=
  "- " +:+ Jalon.nom jalon
  +:+ " (" +:+ datetime.str (Jalon.date jalon) +:+ ")" +:+ Projet.nl.

Definition ligne_risque `{Runtime} (risque : Risque.t) : string :=
  "- " +:+ Risque.description risque
  +:+ " (Probabilité: " +:+ repr_float (Risque.probabilite risque)
  +:+ ", Impact: " +:+ Risque.impact risque +:+ ")" +:+ Projet.nl.

Definition ligne_chemin (T : Tache.t) : string :=
  "- " +:+ Tache.nom T
  +:+ " (" +:+ datetime.str (Tache.date_debut T)
  +:+ " à " +:+ datetime.str (Tache.date_fin T) +:+ ")" +:+ Projet.nl.

Definition entete `{Runtime} (p : Projet.t) : string :=
  "Rapport d'activités du Projet '" +:+ Projet.nom p +:+ "':" +:+ Projet.nl
  +:+ "Version: " +:+ str_int (Projet.version p) +:+ Projet.nl
  +:+ "Dates: " +:+ datetime.str (Projet.date_debut p)
  +:+ " à " +:+ datetime.str (Projet.date_fin p) +:+ Projet.nl
  +:+ "Budget: " +:+ repr_float (Projet.budget p)
  +:+ " Unité Monétaire" +:+ Projet.nl.

(** * Properties *)

(** ** Unfolding [find_longest_path] *)

Lemma find_longest_path_memo fuel h t st r :
  memo st !! t = Some r ->
  find_longest_path (S fuel) h t st = Ret (r, st).
Proof. intros Hm. simpl. by rewrite Hm. Qed.

Lemma find_longest_path_source fuel h t st T :
  memo st !! t = None -> h !! t = Some T -> Tache.dependances T = [] ->
  find_longest_path (S fuel) h t st = Ret ((0, [t]), memoriser t (0, [t]) st).
Proof. intros Hm Ht Hd. simpl. rewrite Hm. unfold deref. rewrite Ht. simpl. by rewrite Hd. Qed.

Lemma find_longest_path_noeud fuel h t st T :
  memo st !! t = None -> h !! t = Some T -> Tache.dependances T <> [] ->
  find_longest_path (S fuel) h t st =
    b ← boucle_dependances (find_longest_path fuel h) (Tache.dependances T) 0 [] st;
    let r := (b.1.1 + Tache.jours T, b.1.2 ++ [t]) in
    Ret (r, memoriser t r b.2).
Proof.
  intros Hm Ht Hd. cbn [find_longest_path]. rewrite Hm. unfold deref. rewrite Ht.
  cbn [mbind res_bind].
  destruct (Tache.dependances T) as [|d ds] eqn:E; [done|].
  destruct (boucle_dependances _ _ _ _ _) as [[[ml mp] st']| | |]; done.
Qed.

(** On a closed store, a call on a stored task either returns or exceeds the
    depth bound: it neither raises nor reads outside the store. *)
Lemma boucle_dependances_issue appel deps ml mp st :
  (forall d st, d ∈ deps -> (exists r, appel d st = Ret r) \/ appel d st = OutOfFuel) ->
  (exists r, boucle_dependances appel deps ml mp st = Ret r)
  \/ boucle_dependances appel deps ml mp st = OutOfFuel.
Proof.
  revert ml mp st. induction deps as [|d ds IH]; intros ml mp st Ha; simpl.
  - left. eauto.
  - destruct (Ha d st) as [[[[dl dp] st'] ->]| ->]; [set_solver| |by right].
    simpl. destruct (dl >? ml); apply IH; intros; apply Ha; set_solver.
Qed.

Lemma find_longest_path_issue h :
  tas_clos h ->
  forall fuel t st, is_Some (h !! t) ->
    (exists r, find_longest_path fuel h t st = Ret r)
    \/ find_longest_path fuel h t st = OutOfFuel.
Proof.
  intros Hclos. induction fuel as [|fuel IH]; intros t st [T HT]; [by right|].
  destruct (memo st !! t) as [r|] eqn:Hm.
  { left. rewrite (find_longest_path_memo _ _ _ _ _ Hm). eauto. }
  destruct (Tache.dependances T) as [|d ds] eqn:Hd.
  { left. rewrite (find_longest_path_source _ _ _ _ _ Hm HT Hd). eauto. }
  rewrite (find_longest_path_noeud _ _ _ _ _ Hm HT) by (rewrite Hd; done).
  destruct (boucle_dependances_issue (find_longest_path fuel h)
              (Tache.dependances T) 0 [] st) as [[b ->]| ->].
  - intros x st' Hx. apply IH. apply (Hclos t x). exists T. done.
  - left. simpl. eauto.
  - by right.
Qed.

(** ** Termination on acyclic graphs *)

Lemma boucle_dependances_ret appel deps ml mp st :
  (forall d st, d ∈ deps -> exists r, appel d st = Ret r) ->
  exists r, boucle_dependances appel deps ml mp st = Ret r.
Proof.
  revert ml mp st. induction deps as [|d ds IH]; intros ml mp st Ha; simpl; [eauto|].
  destruct (Ha d st) as [[[dl dp] st'] ->]; [set_solver|].
  simpl. destruct (dl >? ml); apply IH; intros; apply Ha; set_solver.
Qed.

(** [chaine] is the set of tasks whose calls are open when [t] is reached:
    each of them leads to [t], so on an acyclic store [t] is not among them,
    and a depth of one more than the number of stored tasks is never
    exceeded. *)
Lemma find_longest_path_termine h :
  tas_clos h -> acyclique h ->
  forall fuel (chaine : gset nat) t st,
    is_Some (h !! t) ->
    chaine ⊆ dom h ->
    (forall s, s ∈ chaine -> tc (arete h) s t) ->
    (size (dom h) < fuel + size chaine)%nat ->
    exists r, find_longest_path fuel h t st = Ret r.
Proof.
  intros Hclos Hacyc.
  assert (Hfrais : forall (chaine : gset nat) t,
             is_Some (h !! t) -> chaine ⊆ dom h ->
             (forall s, s ∈ chaine -> tc (arete h) s t) ->
             (t ∉ chaine) /\ (size ({[t]} ∪ chaine) = S (size chaine))%nat
             /\ ({[t]} ∪ chaine) ⊆ dom h).
  { intros chaine t Ht Hsub Hch.
    assert (t ∉ chaine) by (intros Hin; exact (Hacyc t (Hch t Hin))).
    split; [done|]. split.
    - rewrite size_union by (by apply disjoint_singleton_l).
      by rewrite size_singleton.
    - apply union_subseteq. split; [|done].
      apply singleton_subseteq_l. by apply elem_of_dom. }
  induction fuel as [|fuel IH]; intros chaine t st Ht Hsub Hch Hsize.
  - destruct (Hfrais chaine t Ht Hsub Hch) as (_ & Hs & Hd).
    apply subseteq_size in Hd. lia.
  - destruct Ht as [T HT].
    destruct (memo st !! t) as [r|] eqn:Hm.
    { rewrite (find_longest_path_memo _ _ _ _ _ Hm). eauto. }
    destruct (Tache.dependances T) as [|d ds] eqn:Hd.
    { rewrite (find_longest_path_source _ _ _ _ _ Hm HT Hd). eauto. }
    rewrite (find_longest_path_noeud _ _ _ _ _ Hm HT) by (rewrite Hd; done).
    destruct (Hfrais chaine t (ex_intro _ T HT) Hsub Hch) as (Hnin & Hs & Hdom).
    destruct (boucle_dependances_ret (find_longest_path fuel h)
                (Tache.dependances T) 0 [] st) as [b ->]; [|simpl; eauto].
    intros x st' Hx.
    assert (Hedge : arete h t x) by (exists T; done).
    apply (IH ({[t]} ∪ chaine)).
    + by apply (Hclos t x).
    + done.
    + intros s [->%elem_of_singleton|Hs']%elem_of_union.
      * by apply tc_once.
      * eapply tc_r; eauto.
    + lia.
Qed.

Lemma all_paths_ret fuel h l st :
  (forall t st, t ∈ l -> exists r, find_longest_path fuel h t st = Ret r) ->
  exists r, all_paths fuel h l st = Ret r.
Proof.
  revert st. induction l as [|t l IH]; intros st Hf; simpl; [eauto|].
  destruct (Hf t st) as [[e st'] ->]; [set_solver|]. simpl.
  destruct (IH st') as [[es st''] ->]; [intros; apply Hf; set_solver|].
  simpl. eauto.
Qed.

(** ** Divergence on cycles *)

Lemma mauvais_succ h t :
  mauvais h t -> exists d, arete h t d /\ mauvais h d.
Proof.
  intros (c & Hreach & Hcycle).
  destruct (rtc_inv _ _ Hreach) as [->|(y & Hty & Hyc)].
  - inversion Hcycle as [x y Hxy|x y z Hxy Hyz]; subst.
    + exists c. split; [done|]. exists c. split; [apply rtc_refl|done].
    + exists y. split; [done|]. exists c. split; [by apply tc_rtc|done].
  - exists y. split; [done|]. exists c. done.
Qed.

Lemma memo_sain_memoriser h t r st :
  memo_sain h st -> ~ mauvais h t -> memo_sain h (memoriser t r st).
Proof.
  intros Hs Ht x. simpl. destruct (decide (t = x)) as [->|Hne]; [done|].
  rewrite lookup_insert_ne by done. apply Hs.
Qed.

Lemma boucle_dependances_sain h appel :
  (forall d st r st', memo_sain h st -> appel d st = Ret (r, st') ->
                      ~ mauvais h d /\ memo_sain h st') ->
  forall deps ml mp st b,
    memo_sain h st ->
    boucle_dependances appel deps ml mp st = Ret b ->
    memo_sain h b.2 /\ forall d, d ∈ deps -> ~ mauvais h d.
Proof.
  intros Ha. induction deps as [|d ds IH]; intros ml mp st b Hs; simpl.
  - intros [= <-]. split; [done|]. intros d Hd. by apply elem_of_nil in Hd.
  - destruct (appel d st) as [[[dl dp] st']| | |] eqn:E; simpl; try done.
    destruct (Ha _ _ _ _ Hs E) as [Hd Hs'].
    intros Hb.
    assert (memo_sain h b.2 /\ forall x, x ∈ ds -> ~ mauvais h x) as [H1 H2].
    { destruct (dl >? ml); eapply IH; eauto. }
    split; [done|]. intros x [->|Hx]%elem_of_cons; auto.
Qed.

(** A call that returns was made on a task that leads into no cycle. *)
Lemma find_longest_path_sain h fuel :
  forall t st r st', memo_sain h st ->
    find_longest_path fuel h t st = Ret (r, st') ->
    ~ mauvais h t /\ memo_sain h st'.
Proof.
  induction fuel as [|fuel IH]; intros t st r st' Hs; [done|].
  destruct (memo st !! t) as [r0|] eqn:Hm.
  { rewrite (find_longest_path_memo _ _ _ _ _ Hm). intros [= <- <-].
    split; [|done]. apply Hs. by rewrite Hm. }
  destruct (h !! t) as [T|] eqn:HT; cycle 1.
  { simpl. rewrite Hm. unfold deref. by rewrite HT. }
  assert (Hsucc : (forall d, d ∈ Tache.dependances T -> ~ mauvais h d) -> ~ mauvais h t).
  { intros Hdeps (d & (T' & HT' & Hd) & Hbad)%mauvais_succ.
    rewrite HT in HT'. injection HT' as <-. by apply (Hdeps d). }
  destruct (Tache.dependances T) as [|d ds] eqn:Hd.
  { rewrite (find_longest_path_source _ _ _ _ _ Hm HT Hd). intros [= <- <-].
    assert (~ mauvais h t) by (apply Hsucc; intros x Hx; by apply elem_of_nil in Hx).
    split; [done|]. by apply memo_sain_memoriser. }
  rewrite (find_longest_path_noeud _ _ _ _ _ Hm HT) by (rewrite Hd; done).
  destruct (boucle_dependances _ _ _ _ _) as [b| | |] eqn:Hb; simpl; try done.
  intros [= <- <-].
  destruct (boucle_dependances_sain h _ IH _ _ _ _ _ Hs Hb) as [Hs' Hdeps].
  assert (~ mauvais h t) by (apply Hsucc; rewrite <- Hd; exact Hdeps).
  split; [done|]. by apply memo_sain_memoriser.
Qed.

Lemma boucle_dependances_diverge h fuel :
  tas_clos h ->
  (forall t st, memo_sain h st -> mauvais h t ->
                find_longest_path fuel h t st = OutOfFuel) ->
  forall deps ml mp st,
    (forall d, d ∈ deps -> is_Some (h !! d)) ->
    (exists d, d ∈ deps /\ mauvais h d) ->
    memo_sain h st ->
    boucle_dependances (find_longest_path fuel h) deps ml mp st = OutOfFuel.
Proof.
  intros Hclos Hdiv. induction deps as [|d ds IH]; intros ml mp st Hin Hbad Hs.
  { destruct Hbad as (d & Hd & _). by apply elem_of_nil in Hd. }
  simpl.
  destruct (find_longest_path_issue h Hclos fuel d st) as [[[[dl dp] st'] E]|E];
    [apply Hin; by constructor| |by rewrite E].
  rewrite E. simpl.
  destruct (find_longest_path_sain h fuel _ _ _ _ Hs E) as [Hd Hs'].
  assert (exists x, x ∈ ds /\ mauvais h x) as Hbad'.
  { destruct Hbad as (x & [->|Hx]%elem_of_cons & Hm); [done|eauto]. }
  destruct (dl >? ml); apply IH; auto; intros; apply Hin; by constructor.
Qed.

(** A call on a task that leads into a cycle exceeds every depth bound. *)
Lemma find_longest_path_diverge h :
  tas_clos h ->
  forall fuel t st, memo_sain h st -> mauvais h t ->
    find_longest_path fuel h t st = OutOfFuel.
Proof.
  intros Hclos. induction fuel as [|fuel IH]; intros t st Hs Hbad; [done|].
  destruct (memo st !! t) as [r0|] eqn:Hm.
  { exfalso. apply (Hs t); [by rewrite Hm|done]. }
  destruct (mauvais_succ _ _ Hbad) as (d & (T & HT & Hd) & Hbadd).
  rewrite (find_longest_path_noeud _ _ _ _ _ Hm HT)
    by (intros E; rewrite E in Hd; by apply elem_of_nil in Hd).
  rewrite (boucle_dependances_diverge h fuel Hclos IH); [done| |eauto|done].
  intros x Hx. apply (Hclos t x). exists T. done.
Qed.

Lemma all_paths_diverge h fuel :
  tas_clos h ->
  forall l st,
    (forall t, t ∈ l -> is_Some (h !! t)) ->
    (exists t, t ∈ l /\ mauvais h t) ->
    memo_sain h st ->
    all_paths fuel h l st = OutOfFuel.
Proof.
  intros Hclos. induction l as [|t l IH]; intros st Hin Hbad Hs.
  { destruct Hbad as (d & Hd & _). by apply elem_of_nil in Hd. }
  simpl.
  destruct (find_longest_path_issue h Hclos fuel t st) as [[[e st'] E]|E];
    [apply Hin; by constructor| |by rewrite E].
  rewrite E. simpl.
  destruct (find_longest_path_sain h fuel _ _ _ _ Hs E) as [Ht Hs'].
  rewrite IH; [done| |  |done].
  - intros; apply Hin; by constructor.
  - destruct Hbad as (x & [->|Hx]%elem_of_cons & Hm); [done|eauto].
Qed.

(** ** The memo table is filled once per task, with coherent entries *)

Lemma invariant_initial h : invariant h etat_initial.
Proof.
  split; [|split; [|split]].
  - intros x [e He]. simpl in He. by rewrite lookup_empty in He.
  - intros x e T He. simpl in He. by rewrite lookup_empty in He.
  - apply NoDup_nil_2.
  - intros x. simpl. rewrite lookup_empty. split.
    + intros Hx. by apply elem_of_nil in Hx.
    + by intros [e He].
Qed.

Lemma journal_exact_memoriser t r st :
  journal_exact st -> memo st !! t = None -> journal_exact (memoriser t r st).
Proof.
  intros [Hnd Hkeys] Hm.
  assert (t ∉ evalues st) as Hnin.
  { intros Hin. apply Hkeys in Hin. rewrite Hm in Hin. by destruct Hin. }
  split; simpl.
  - apply NoDup_app. split; [done|]. split; [|apply NoDup_singleton].
    intros x Hx ->%list_elem_of_singleton. done.
  - intros x. rewrite elem_of_app, list_elem_of_singleton, Hkeys.
    destruct (decide (t = x)) as [->|Hne].
    + rewrite lookup_insert_eq. split; eauto.
    + rewrite lookup_insert_ne by done. split; [intros [?|?]; [done|congruence]|auto].
Qed.

Lemma invariant_memoriser h t r st T :
  invariant h st -> memo st !! t = None -> ~ mauvais h t -> h !! t = Some T ->
  match Tache.dependances T with
  | [] => r = (0, [t])
  | deps =>
      exists rs, Forall2 (fun d r => memo st !! d = Some r) deps rs /\
                 r = ((meilleur rs).1 + Tache.jours T, (meilleur rs).2 ++ [t])
  end ->
  invariant h (memoriser t r st).
Proof.
  intros (Hs & Hc & Hj) Hm Hbad HT Hr.
  assert (Hmono : forall d e, memo st !! d = Some e ->
                              memo (memoriser t r st) !! d = Some e).
  { intros d e Hd. simpl. rewrite lookup_insert_ne; [done|]. congruence. }
  split; [by apply memo_sain_memoriser|]. split; [|by apply journal_exact_memoriser].
  intros x e T' He HT'. simpl in He.
  destruct (decide (t = x)) as [->|Hne].
  - rewrite lookup_insert_eq in He. injection He as <-.
    rewrite HT in HT'. injection HT' as <-.
    destruct (Tache.dependances T) as [|d ds]; [done|].
    destruct Hr as (rs & Hrs & ->). exists rs. split; [|done].
    eapply Forall2_impl; [exact Hrs|]. intros; by apply Hmono.
  - rewrite lookup_insert_ne in He by done.
    specialize (Hc x e T' He HT').
    destruct (Tache.dependances T') as [|d ds]; [done|].
    destruct Hc as (rs & Hrs & ->). exists rs. split; [|done].
    eapply Forall2_impl; [exact Hrs|]. intros; by apply Hmono.
Qed.

Lemma boucle_dependances_correct h appel :
  (forall d st r st', invariant h st -> appel d st = Ret (r, st') ->
                      appel_correct h d st r st') ->
  forall deps ml mp st b,
    invariant h st ->
    boucle_dependances appel deps ml mp st = Ret b ->
    invariant h b.2 /\
    (forall x e, memo st !! x = Some e -> memo b.2 !! x = Some e) /\
    (exists rs, Forall2 (fun d r => memo b.2 !! d = Some r) deps rs /\
                b.1 = fold_left pas rs (ml, mp)) /\
    (forall x, is_Some (memo b.2 !! x) ->
               is_Some (memo st !! x) \/ exists d, d ∈ deps /\ rtc (arete h) d x).
Proof.
  intros Ha. induction deps as [|d ds IH]; intros ml mp st b Hi; simpl.
  - intros [= <-]. simpl. split; [done|]. split; [done|]. split; [|auto].
    exists []. split; [constructor|done].
  - destruct (appel d st) as [[[dl dp] st1]| | |] eqn:E; simpl; try done.
    destruct (Ha _ _ _ _ Hi E) as (Hi1 & Hmono1 & Hd & Hreach1).
    intros Hb.
    assert (boucle_dependances appel ds (pas (ml, mp) (dl, dp)).1
              (pas (ml, mp) (dl, dp)).2 st1 = Ret b) as Hb'.
    { unfold pas. simpl. by destruct (dl >? ml). }
    destruct (IH _ _ _ _ Hi1 Hb') as (Hi2 & Hmono2 & (rs & Hrs & Hfold) & Hreach2).
    split; [done|]. split; [auto|]. split.
    + exists ((dl, dp) :: rs). split; [constructor; auto|].
      simpl. rewrite Hfold. by destruct (pas (ml, mp) (dl, dp)).
    + intros x Hx. destruct (Hreach2 x Hx) as [Hx1|(y & Hy & Hyx)].
      * destruct (Hreach1 x Hx1) as [?|?]; [by left|].
        right. exists d. split; [by constructor|done].
      * right. exists y. split; [by constructor|done].
Qed.

Lemma find_longest_path_correct h fuel :
  forall t st r st', invariant h st ->
    find_longest_path fuel h t st = Ret (r, st') ->
    appel_correct h t st r st'.
Proof.
  induction fuel as [|fuel IH]; intros t st r st' Hi Hcall; [done|].
  destruct (find_longest_path_sain h _ _ _ _ _ (proj1 Hi) Hcall) as [Hbad _].
  revert Hcall.
  destruct (memo st !! t) as [r0|] eqn:Hm.
  { rewrite (find_longest_path_memo _ _ _ _ _ Hm). intros [= <- <-].
    split; [done|]. split; [done|]. split; [done|]. by left. }
  destruct (h !! t) as [T|] eqn:HT; cycle 1.
  { simpl. rewrite Hm. unfold deref. by rewrite HT. }
  assert (Hfin : forall st1 r1,
    invariant h st1 ->
    (forall x e, memo st !! x = Some e -> memo st1 !! x = Some e) ->
    (forall x, is_Some (memo st1 !! x) ->
               is_Some (memo st !! x) \/ tc (arete h) t x) ->
    match Tache.dependances T with
    | [] => r1 = (0, [t])
    | deps =>
      exists rs, Forall2 (fun d r => memo st1 !! d = Some r) deps rs /\
                 r1 = ((meilleur rs).1 + Tache.jours T, (meilleur rs).2 ++ [t])
    end ->
    appel_correct h t st r1 (memoriser t r1 st1)).
  { intros st1 r1 Hi1 Hmono Hreach Hr1.
    assert (memo st1 !! t = None) as Hm1.
    { destruct (memo st1 !! t) as [e|] eqn:E; [|done]. exfalso.
      destruct (Hreach t) as [[e' He']|Hcyc]; [by rewrite E|congruence|].
      apply Hbad. exists t. split; [apply rtc_refl|done]. }
    split; [by eapply invariant_memoriser|]. split; [|split].
    - intros x e Hx. simpl. rewrite lookup_insert_ne; [auto|]. congruence.
    - simpl. apply lookup_insert_eq.
    - intros x. simpl. destruct (decide (t = x)) as [->|Hne].
      + right. apply rtc_refl.
      + rewrite lookup_insert_ne by done. intros Hx.
        destruct (Hreach x Hx) as [?|?%tc_rtc]; auto. }
  destruct (Tache.dependances T) as [|d ds] eqn:Hd.
  { rewrite (find_longest_path_source _ _ _ _ _ Hm HT Hd). intros [= <- <-].
    apply Hfin; auto. }
  rewrite (find_longest_path_noeud _ _ _ _ _ Hm HT) by (rewrite Hd; done).
  destruct (boucle_dependances _ _ _ _ _) as [b| | |] eqn:Hb; simpl; try done.
  intros [= <- <-].
  destruct (boucle_dependances_correct h _ IH _ _ _ _ _ Hi Hb)
    as (Hi1 & Hmono & (rs & Hrs & Hfold) & Hreach).
  apply Hfin; auto.
  - intros x Hx. destruct (Hreach x Hx) as [?|(y & Hy & Hyx)]; [by left|].
    right. eapply tc_rtc_r; [|exact Hyx]. apply tc_once. exists T. by split.
  - exists rs. rewrite <- Hd. split; [done|]. unfold meilleur. by rewrite <- Hfold.
Qed.

Lemma all_paths_correct h fuel :
  forall l st rs st', invariant h st ->
    all_paths fuel h l st = Ret (rs, st') ->
    invariant h st' /\
    (forall x e, memo st !! x = Some e -> memo st' !! x = Some e) /\
    Forall2 (fun t r => memo st' !! t = Some r) l rs.
Proof.
  induction l as [|t l IH]; intros st rs st' Hi; simpl.
  - intros [= <- <-]. split; [done|]. split; [done|constructor].
  - destruct (find_longest_path fuel h t st) as [[e st1]| | |] eqn:E; simpl; try done.
    destruct (find_longest_path_correct h fuel _ _ _ _ Hi E) as (Hi1 & Hmono1 & Ht & _).
    destruct (all_paths fuel h l st1) as [[es st2]| | |] eqn:E'; simpl; try done.
    intros [= <- <-].
    destruct (IH _ _ _ Hi1 E') as (Hi2 & Hmono2 & Hl).
    split; [done|]. split; [auto|]. constructor; auto.
Qed.

(** ** Sample graphs: edges, closure, acyclicity *)

Lemma acyclique_rang h (rang : nat -> nat) :
  (forall t d, arete h t d -> (rang d < rang t)%nat) -> acyclique h.
Proof.
  intros Hr.
  assert (forall t d, tc (arete h) t d -> (rang d < rang t)%nat) as Htc.
  { induction 1 as [x y Hxy|x y z Hxy _ IH]; [by apply Hr|].
    apply Hr in Hxy. lia. }
  intros t Ht. apply Htc in Ht. lia.
Qed.

Lemma arete_tas_test t d : arete TestProjet.tas_test t d -> t = 2%nat /\ d = 1%nat.
Proof. intros H. unfold TestProjet.tas_test in H. aretes H. done. Qed.

Lemma tas_test_clos : tas_clos TestProjet.tas_test.
Proof. intros t d [-> ->]%arete_tas_test. by eexists. Qed.

Lemma tas_test_acyclique : acyclique TestProjet.tas_test.
Proof. apply (acyclique_rang _ id). intros t d [-> ->]%arete_tas_test. simpl. lia. Qed.

Lemma arete_losange ja jb jc t d :
  arete (Exemples.losange ja jb jc) t d ->
  (t = 2 /\ d = 1 \/ t = 3 /\ d = 1 \/ t = 4 /\ d = 2 \/ t = 4 /\ d = 3)%nat.
Proof. intros H. unfold Exemples.losange in H. aretes H; auto. Qed.

Lemma losange_clos ja jb jc : tas_clos (Exemples.losange ja jb jc).
Proof.
  intros t d [[-> ->]|[[-> ->]|[[-> ->]|[-> ->]]]]%arete_losange; by eexists.
Qed.

Lemma losange_acyclique ja jb jc : acyclique (Exemples.losange ja jb jc).
Proof.
  apply (acyclique_rang _ id).
  intros t d [[-> ->]|[[-> ->]|[[-> ->]|[-> ->]]]]%arete_losange; simpl; lia.
Qed.

Lemma losange_diamant ja jb jc : diamant (Exemples.losange ja jb jc) 1 2 3 4.
Proof.
  split; [done|].
  exists (Exemples.tache 11 "A" 1 (1 + ja) []),
         (Exemples.tache 12 "B" 10 (10 + jb) [1%nat]),
         (Exemples.tache 13 "C" 10 (10 + jc) [1%nat]),
         (Exemples.tache 14 "D" 20 25 [2%nat; 3%nat]).
  repeat split; reflexivity.
Qed.

Lemma tas_boucle_clos : tas_clos Exemples.tas_boucle.
Proof. intros t d H. unfold Exemples.tas_boucle in H. aretes H. by eexists. Qed.

Lemma tas_boucle_mauvais : mauvais Exemples.tas_boucle 1.
Proof.
  exists 1%nat. split; [apply rtc_refl|]. apply tc_once.
  eexists. split; [reflexivity|]. simpl. by constructor.
Qed.

(** ** A deeper bound does not change a returned result *)

Lemma boucle_dependances_mono appel appel' :
  (forall d st r, appel d st = Ret r -> appel' d st = Ret r) ->
  forall deps ml mp st b,
    boucle_dependances appel deps ml mp st = Ret b ->
    boucle_dependances appel' deps ml mp st = Ret b.
Proof.
  intros Ha. induction deps as [|d ds IH]; intros ml mp st b; simpl; [done|].
  destruct (appel d st) as [[[dl dp] st1]| | |] eqn:E; simpl; try done.
  rewrite (Ha _ _ _ E). simpl. destruct (dl >? ml); apply IH.
Qed.

Lemma find_longest_path_succ h fuel :
  forall t st r,
    find_longest_path fuel h t st = Ret r ->
    find_longest_path (S fuel) h t st = Ret r.
Proof.
  induction fuel as [|fuel IH]; intros t st r; [done|].
  destruct (memo st !! t) as [r0|] eqn:Hm.
  { by rewrite (find_longest_path_memo fuel _ _ _ _ Hm),
               (find_longest_path_memo (S fuel) _ _ _ _ Hm). }
  destruct (h !! t) as [T|] eqn:HT; cycle 1.
  { simpl. rewrite Hm. unfold deref. by rewrite HT. }
  destruct (Tache.dependances T) as [|d ds] eqn:Hd.
  { by rewrite (find_longest_path_source fuel _ _ _ _ Hm HT Hd),
               (find_longest_path_source (S fuel) _ _ _ _ Hm HT Hd). }
  rewrite (find_longest_path_noeud fuel _ _ _ _ Hm HT) by (rewrite Hd; done).
  rewrite (find_longest_path_noeud (S fuel) _ _ _ _ Hm HT) by (rewrite Hd; done).
  destruct (boucle_dependances (find_longest_path fuel h) _ _ _ _)
    as [b| | |] eqn:Hb; cbn [mbind res_bind]; try done.
  by rewrite (boucle_dependances_mono _ _ IH _ _ _ _ _ Hb).
Qed.

Lemma find_longest_path_mono h fuel fuel' t st r :
  (fuel <= fuel')%nat ->
  find_longest_path fuel h t st = Ret r ->
  find_longest_path fuel' h t st = Ret r.
Proof.
  induction 1 as [|fuel' _ IH]; [done|].
  intros Hr. by apply find_longest_path_succ, IH.
Qed.

Lemma all_paths_mono h fuel fuel' :
  (fuel <= fuel')%nat ->
  forall l st r,
    all_paths fuel h l st = Ret r -> all_paths fuel' h l st = Ret r.
Proof.
  intros Hle. induction l as [|t l IH]; intros st r; simpl; [done|].
  destruct (find_longest_path fuel h t st) as [[e st1]| | |] eqn:E; simpl; try done.
  rewrite (find_longest_path_mono _ _ _ _ _ _ Hle E). simpl.
  destruct (all_paths fuel h l st1) as [[es st2]| | |] eqn:E'; simpl; try done.
  by rewrite (IH _ _ E').
Qed.

(** ** Critical path *)

(** C1.  On the two tasks of [test_calculer_chemin_critique] (task 1 from
    1 to 31 January without predecessor, task 2 from 1 February to 30 June
    with task 1 as predecessor), the program stores the path [[tache2]]
    alone, where the test asserts [[tache1, tache2]]: the task without
    predecessor is given length [0] (its own span is 30 days), and a
    predecessor of length [0] never replaces the initial empty path; task 2
    gets length [150], not [180]. *)
Theorem test_calculer_chemin_critique_echoue :
  Tache.jours TestProjet.tache1 = 30 /\
  Tache.jours TestProjet.tache2 = 150 /\
  (exists st, all_paths 2 TestProjet.tas_test [1; 2]%nat etat_initial
              = Ret ([(0, [1%nat]); (150, [2%nat])], st)) /\
  exists p,
    (r1 ← Projet.ajouter_tache TestProjet.tas_test 1 TestProjet.projet;
     r2 ← Projet.ajouter_tache TestProjet.tas_test 2 r1.1;
     Projet.calculer_chemin_critique 2 TestProjet.tas_test r2.1) = Ret p /\
    Projet.chemin_critique p = [2%nat] /\
    Projet.chemin_critique p <> [1%nat; 2%nat].
Proof.
  split; [reflexivity|]. split; [reflexivity|]. split.
  - eexists. vm_compute. reflexivity.
  - eexists. split; [vm_compute; reflexivity|]. split; [reflexivity|discriminate].
Qed.

(** C2.  On a newly constructed project, and on any project whose task
    list is empty, [calculer_chemin_critique] raises [ValueError] (from [max]
    on an empty list) whatever the depth bound, and so assigns no critical
    path. *)
Theorem calculer_chemin_critique_vide fuel h p nom description date_debut date_fin :
  Projet.calculer_chemin_critique fuel h
    (Projet.init nom description date_debut date_fin) = Raise ValueError /\
  Projet.calculer_chemin_critique fuel h (Projet.set_taches [] p) = Raise ValueError.
Proof. split; reflexivity. Qed.

(** C5.  On a closed store whose predecessor references are acyclic,
    [calculer_chemin_critique] terminates, with one and the same outcome for
    every depth bound above the number of stored tasks; if a task of the
    project leads into a cycle (a task that is its own predecessor included),
    the recursion exceeds every depth bound. *)
Theorem calculer_chemin_critique_terminaison h p :
  tas_clos h ->
  (forall t, t ∈ Projet.taches p -> is_Some (h !! t)) ->
  (acyclique h ->
   exists issue,
     terminates issue /\
     forall fuel, (size (dom h) < fuel)%nat ->
       Projet.calculer_chemin_critique fuel h p = issue)
  /\
  ((exists t, t ∈ Projet.taches p /\ mauvais h t) ->
   forall fuel, Projet.calculer_chemin_critique fuel h p = OutOfFuel).
Proof.
  intros Hclos Hin. split.
  - intros Hacyc.
    destruct (all_paths_ret (S (size (dom h))) h (Projet.taches p) etat_initial)
      as [[rs st] Hrun].
    { intros t st Ht.
      apply (find_longest_path_termine h Hclos Hacyc _ ∅); auto.
      - apply empty_subseteq.
      - intros s Hs. by apply not_elem_of_empty in Hs.
      - rewrite size_empty. lia. }
    exists (best ← py_max fst rs; Ret (Projet.set_chemin_critique best.2 p)).
    split.
    + destruct rs as [|r rs]; simpl; [right|left]; eauto.
    + intros fuel Hfuel. unfold Projet.calculer_chemin_critique.
      by rewrite (all_paths_mono h _ fuel Hfuel _ _ _ Hrun).
  - intros Hbad fuel. unfold Projet.calculer_chemin_critique.
    rewrite (all_paths_diverge h fuel Hclos); auto.
    apply invariant_initial.
Qed.

Lemma calculer_chemin_critique_terminaison_temoin :
  (exists issue,
     terminates issue /\
     forall fuel, (size (dom TestProjet.tas_test) < fuel)%nat ->
       Projet.calculer_chemin_critique fuel TestProjet.tas_test
         (Exemples.projet_de [1; 2]%nat) = issue)
  /\ forall fuel,
       Projet.calculer_chemin_critique fuel Exemples.tas_boucle
         (Exemples.projet_de [1%nat]) = OutOfFuel.
Proof.
  split.
  - apply (calculer_chemin_critique_terminaison TestProjet.tas_test
             (Exemples.projet_de [1; 2]%nat)).
    + exact tas_test_clos.
    + intros t Ht. simpl in Ht.
      repeat (apply elem_of_cons in Ht as [->|Ht]); try (by eexists).
      by apply elem_of_nil in Ht.
    + exact tas_test_acyclique.
  - apply (calculer_chemin_critique_terminaison Exemples.tas_boucle
             (Exemples.projet_de [1%nat])).
    + exact tas_boucle_clos.
    + intros t Ht. simpl in Ht.
      repeat (apply elem_of_cons in Ht as [->|Ht]); try (by eexists).
      by apply elem_of_nil in Ht.
    + exists 1%nat. split; [by constructor|exact tas_boucle_mauvais].
Defined.

Lemma journal_exact_une_fois st x :
  journal_exact st -> is_Some (memo st !! x) ->
  count_occ Nat.eq_dec (evalues st) x = 1%nat.
Proof.
  intros [Hnd Hkeys] Hx.
  apply NoDup_ListNoDup in Hnd.
  apply (proj1 (NoDup_count_occ' Nat.eq_dec (evalues st)) Hnd).
  apply list_elem_of_In. by apply Hkeys.
Qed.

(** X17.  On a closed acyclic store that contains a diamond (A without
    predecessor, B and C each with A as only predecessor, D with B then C),
    for any project whose task list contains D and any sufficient depth bound,
    [calculer_chemin_critique] returns, and in the memo of its run: when B or
    C has a positive computed length, the path of D is the path of C followed
    by D if C is strictly longer than B, and the path of B followed by D
    otherwise (so B wins ties); A was computed exactly once.  When D is the
    only task of the project, its path is the critical path stored. *)
Theorem diamant_chemin_du_gagnant h a b c d p fuel :
  tas_clos h -> acyclique h -> diamant h a b c d ->
  (forall t, t ∈ Projet.taches p -> is_Some (h !! t)) ->
  d ∈ Projet.taches p ->
  (size (dom h) < fuel)%nat ->
  exists rs st eb ec ed p',
    all_paths fuel h (Projet.taches p) etat_initial = Ret (rs, st) /\
    Projet.calculer_chemin_critique fuel h p = Ret p' /\
    memo st !! b = Some eb /\ memo st !! c = Some ec /\
    memo st !! d = Some ed /\
    (0 < eb.1 \/ 0 < ec.1 -> chemin_par_le_gagnant b c d st) /\
    count_occ Nat.eq_dec (evalues st) a = 1%nat /\
    (Projet.taches p = [d] -> Projet.chemin_critique p' = ed.2).
Proof.
  intros Hclos Hacyc (Hbc & A & B & C & D & HA & HB & HC & HD & HdA & HdB & HdC & HdD)
         Hin Hd Hfuel.
  destruct (all_paths_ret fuel h (Projet.taches p) etat_initial) as [[rs st] Hrun].
  { intros t st Ht.
    apply (find_longest_path_termine h Hclos Hacyc fuel ∅); auto.
    - apply empty_subseteq.
    - intros s Hs. by apply not_elem_of_empty in Hs.
    - rewrite size_empty. lia. }
  destruct (all_paths_correct h fuel _ _ _ _ (invariant_initial h) Hrun)
    as ((_ & Hcoh & Hj) & _ & Hl).
  apply list_elem_of_lookup_1 in Hd as [i Hi].
  destruct (Forall2_lookup_l _ _ _ _ _ Hl Hi) as (ed & Hrsi & Hed).
  pose proof (Hcoh d ed D Hed HD) as HcD. rewrite HdD in HcD.
  destruct HcD as (rsD & HrsD & HedD).
  apply Forall2_cons_inv_l in HrsD as (eb & rsD' & Heb & HrsD & ->).
  apply Forall2_cons_inv_l in HrsD as (ec & rsD'' & Hec & HrsD & ->).
  apply Forall2_nil_inv_l in HrsD as ->.
  pose proof (Hcoh b eb B Heb HB) as HcB. rewrite HdB in HcB.
  destruct HcB as (rsB & HrsB & _).
  apply Forall2_cons_inv_l in HrsB as (ea & rsB' & Hea & _ & _).
  assert (exists best, py_max fst rs = Ret best) as [best Hbest].
  { destruct rs as [|r rs]; [by rewrite lookup_nil in Hrsi|]. simpl. eauto. }
  exists rs, st, eb, ec, ed, (Projet.set_chemin_critique best.2 p).
  split; [done|]. split.
  { unfold Projet.calculer_chemin_critique. rewrite Hrun. simpl. by rewrite Hbest. }
  split; [done|]. split; [done|]. split; [done|]. split; [|split].
  - intros Hpos lb pb lc pc ld pd Hb' Hc' Hd'.
    rewrite Heb in Hb'. injection Hb' as ->.
    rewrite Hec in Hc'. injection Hc' as ->.
    rewrite Hed in Hd'. subst ed. injection Hd' as _ <-.
    simpl in Hpos. unfold meilleur, pas. simpl.
    destruct (Z.gtb_spec lb 0); simpl.
    + by destruct (lc >? lb).
    + destruct (Z.gtb_spec lc 0); simpl; [|lia].
      destruct (Z.gtb_spec lc lb); [done|lia].
  - apply journal_exact_une_fois; [done|]. by rewrite Hea.
  - intros Hp. rewrite Hp in Hl.
    apply Forall2_cons_inv_l in Hl as (e & rs' & He & Hrs' & ->).
    apply Forall2_nil_inv_l in Hrs' as ->.
    rewrite Hed in He. injection He as <-.
    simpl in Hbest. by injection Hbest as <-.
Qed.

Lemma diamant_chemin_du_gagnant_temoin :
  exists rs st eb ec ed p',
    all_paths 5 Exemples.losange_egal [4%nat] etat_initial = Ret (rs, st) /\
    Projet.calculer_chemin_critique 5 Exemples.losange_egal
      (Exemples.projet_de [4%nat]) = Ret p' /\
    memo st !! 2%nat = Some eb /\ memo st !! 3%nat = Some ec /\
    memo st !! 4%nat = Some ed /\
    (0 < eb.1 \/ 0 < ec.1 -> chemin_par_le_gagnant 2 3 4 st) /\
    count_occ Nat.eq_dec (evalues st) 1%nat = 1%nat /\
    ([4%nat] = [4%nat] -> Projet.chemin_critique p' = ed.2).
Proof.
  apply (diamant_chemin_du_gagnant Exemples.losange_egal 1 2 3 4
           (Exemples.projet_de [4%nat]) 5).
  - exact (losange_clos 7 5 5).
  - exact (losange_acyclique 7 5 5).
  - exact (losange_diamant 7 5 5).
  - intros t Ht. simpl in Ht.
    repeat (apply elem_of_cons in Ht as [->|Ht]); try (by eexists).
    by apply elem_of_nil in Ht.
  - by constructor.
  - vm_compute. lia.
Defined.

(** C4.  The code departs from the claim that the path of D goes through
    the longer of B and C, with B winning ties: the running maximum starts at
    [(0, [])] and is replaced only on strict [>], so a predecessor of computed
    length [0] is never selected.  In the diamond where A, B and C each start
    and end on the same day, the computed lengths of B and C are equal (both
    [0]), yet the path of D is [[D]] alone and not the path of B followed by
    D.  This is the slip that makes the program's own test fail (C1). *)
Lemma diamant_nul_contre_exemple :
  diamant Exemples.losange_nul 1 2 3 4 /\
  exists rs st,
    all_paths 3 Exemples.losange_nul [4%nat] etat_initial = Ret (rs, st) /\
    memo st !! 2%nat = Some (0, [2%nat]) /\
    memo st !! 3%nat = Some (0, [3%nat]) /\
    memo st !! 4%nat = Some (5, [4%nat]) /\
    ~ chemin_par_le_gagnant 2 3 4 st.
Proof.
  split; [exact (losange_diamant 0 0 0)|].
  eexists. eexists. split; [vm_compute; reflexivity|].
  split; [reflexivity|]. split; [reflexivity|]. split; [reflexivity|].
  intros Hc.
  specialize (Hc 0 [2%nat] 0 [3%nat] 5 [4%nat] eq_refl eq_refl eq_refl).
  discriminate Hc.
Qed.

(** ** Notification dispatch and the aggregate *)

Lemma notifier_destinataires ctx message l :
  map Envoi.destinataire (NotificationContext.notifier ctx message l) = l.
Proof. induction l as [|m l IH]; simpl; [done|]. by rewrite IH. Qed.

Lemma notifier_messages ctx message l :
  Forall (fun e => Envoi.message e = message)
         (NotificationContext.notifier ctx message l).
Proof. induction l as [|m l IH]; simpl; constructor; auto. Qed.

Lemma notifier_lie message p ctx :
  Projet.notification_context p = Some ctx ->
  Projet.notifier message p =
    NotificationContext.notifier ctx message (Equipe.membres (Projet.equipe p)).
Proof. intros Hc. unfold Projet.notifier. by rewrite Hc. Qed.

Lemma notifier_non_lie message p :
  Projet.notification_context p = None -> Projet.notifier message p = [].
Proof. intros Hc. unfold Projet.notifier. by rewrite Hc. Qed.

Lemma rapport_taches_ret h l rapport :
  (forall t, t ∈ l -> is_Some (h !! t)) ->
  exists texte, Projet.rapport_taches h l rapport = Ret texte.
Proof.
  revert rapport. induction l as [|t l IH]; intros rapport Hin; simpl; [eauto|].
  destruct (Hin t) as [T HT]; [by constructor|].
  unfold deref. rewrite HT. simpl. apply IH. intros; apply Hin; by constructor.
Qed.

Lemma rapport_chemin_ret h l rapport :
  (forall t, t ∈ l -> is_Some (h !! t)) ->
  exists texte, Projet.rapport_chemin h l rapport = Ret texte.
Proof.
  revert rapport. induction l as [|t l IH]; intros rapport Hin; simpl; [eauto|].
  destruct (Hin t) as [T HT]; [by constructor|].
  unfold deref. rewrite HT. simpl. apply IH. intros; apply Hin; by constructor.
Qed.

Section Agregat.
Context `{Runtime}.

(** A call other than [set_notification_strategy] leaves the notification
    context as it was. *)
Lemma executer_notification_context fuel h op p e :
  est_set_notification_strategy op = false ->
  executer fuel h op p = Ret e ->
  Projet.notification_context (apres e) = Projet.notification_context p.
Proof.
  intros Hop. destruct op; simpl in *; try done; try (by intros [= <-]).
  - unfold Projet.ajouter_tache. destruct (deref h tache); simpl; try done.
    by intros [= <-].
  - destruct (Projet.calculer_chemin_critique fuel h p) as [p'| | |] eqn:E;
      simpl; try done.
    intros [= <-]. simpl. unfold Projet.calculer_chemin_critique in E.
    destruct (all_paths _ _ _ _) as [r| | |]; simpl in E; try done.
    destruct (py_max fst r.1); simpl in E; try done. by injection E as <-.
  - destruct (Projet.generer_rapport h p); simpl; try done. by intros [= <-].
Qed.

(** As long as [set_notification_strategy] was never called, the project
    has no notification context. *)
Lemma historique_sans_contexte ops p :
  historique ops p ->
  forallb (fun op => negb (est_set_notification_strategy op)) ops = true ->
  Projet.notification_context p = None.
Proof.
  induction 1 as [| ops p fuel h op e _ IH Hex | ops p fuel h op exn _ IH _];
    [done| |]; rewrite forallb_app; intros [Hops Hop]%andb_prop; auto.
  simpl in Hop. rewrite andb_true_r in Hop. apply negb_true_iff in Hop.
  rewrite (executer_notification_context _ _ _ _ _ Hop Hex). auto.
Qed.

Lemma generer_rapport_ret h p :
  rapport_lisible h p -> exists texte, Projet.generer_rapport h p = Ret texte.
Proof.
  intros Hl. unfold Projet.generer_rapport.
  match goal with
  | |- context [Projet.rapport_taches h (Projet.taches p) ?r] =>
      destruct (rapport_taches_ret h (Projet.taches p) r) as [t1 ->]
  end.
  { intros t Ht. apply Hl. apply elem_of_app. by left. }
  simpl. apply rapport_chemin_ret.
  intros t Ht. apply Hl. apply elem_of_app. by right.
Qed.
End Agregat.

(** C3.  On a newly constructed project, whose version is 1,
    [enregistrer_changement("x")] leaves exactly one change, stamped with
    version 1, and the version counter at 2; the message handed to the
    notification is the one that announces version 2; and once a strategy is
    bound and members are registered, every delivery of that call carries this
    message, one per member. *)
Theorem enregistrer_changement_version nom description date_debut date_fin maintenant :
  let p := Projet.init nom description date_debut date_fin in
  let r := Projet.enregistrer_changement "x" maintenant p in
  Projet.version p = 1 /\
  Projet.changements r.1 = [Changement.mk "x" 1 maintenant] /\
  Projet.version r.1 = 2 /\
  r.2 = Projet.notifier "Changement enregistré: x (version 2)" r.1 /\
  forall strategy membres,
    let q := Projet.set_equipe (Equipe.mk membres)
               (Projet.set_notification_strategy strategy p) in
    let r' := Projet.enregistrer_changement "x" maintenant q in
    Projet.changements r'.1 = [Changement.mk "x" 1 maintenant] /\
    Projet.version r'.1 = 2 /\
    map Envoi.destinataire r'.2 = membres /\
    Forall (fun e => Envoi.message e = "Changement enregistré: x (version 2)"%string) r'.2.
Proof.
  simpl. repeat split.
  - apply notifier_destinataires.
  - apply notifier_messages.
Qed.

(** C8.  After [ajouter_membre_equipe(m)], [m] is in the member list, which
    has grown by exactly one (the new member comes last); and when a strategy
    is bound, the deliveries of the call go to the updated list, so [m] is
    among the recipients. *)
Theorem ajouter_membre_equipe_present m p :
  let r := Projet.ajouter_membre_equipe m p in
  m ∈ Equipe.obtenir_membres (Projet.equipe r.1) /\
  Equipe.membres (Projet.equipe r.1) = Equipe.membres (Projet.equipe p) ++ [m] /\
  length (Equipe.membres (Projet.equipe r.1))
    = S (length (Equipe.membres (Projet.equipe p))) /\
  forall ctx, Projet.notification_context p = Some ctx ->
    map Envoi.destinataire r.2 = Equipe.membres (Projet.equipe p) ++ [m] /\
    m ∈ map Envoi.destinataire r.2.
Proof.
  simpl. split; [|split; [done|split]].
  - unfold Equipe.obtenir_membres. simpl. apply elem_of_app. right. by constructor.
  - rewrite length_app. simpl. lia.
  - intros ctx Hctx. unfold Projet.notifier. simpl. rewrite Hctx.
    rewrite notifier_destinataires. split; [done|].
    apply elem_of_app. right. by constructor.
Qed.

Lemma ajouter_membre_equipe_present_temoin :
  let r := Projet.ajouter_membre_equipe TestProjet.modou TestProjet.projet in
  TestProjet.modou ∈ Equipe.obtenir_membres (Projet.equipe r.1) /\
  length (Equipe.membres (Projet.equipe r.1)) = 1%nat /\
  TestProjet.modou ∈ map Envoi.destinataire r.2.
Proof.
  pose proof (ajouter_membre_equipe_present TestProjet.modou TestProjet.projet)
    as (H1 & _ & H3 & H4).
  split; [exact H1|]. split; [exact H3|].
  exact (proj2 (H4 (NotificationContext.init EmailNotificationStrategy) eq_refl)).
Defined.

Section Revendications.
Context `{Runtime}.

(** C6.  With a strategy bound, each of the six mutating methods makes one
    delivery per member of the team as it is when the notification is sent
    (for [ajouter_membre_equipe] the team that already includes the new
    member, for the others the team before the call), in the order of the
    member list, and all with the same message. *)
Theorem notification_par_membre fuel h op p ctx :
  mutatrice op = true ->
  operation_valide h op ->
  Projet.notification_context p = Some ctx ->
  exists e message,
    executer fuel h op p = Ret e /\
    Equipe.membres (Projet.equipe (apres e)) = membres_apres op p /\
    envois e = NotificationContext.notifier ctx message (membres_apres op p) /\
    map Envoi.destinataire (envois e) = membres_apres op p /\
    length (envois e) = length (membres_apres op p).
Proof.
  intros Hm Hv Hctx.
  assert (forall e message,
    executer fuel h op p = Ret e ->
    Equipe.membres (Projet.equipe (apres e)) = membres_apres op p ->
    envois e = NotificationContext.notifier ctx message (membres_apres op p) ->
    exists e message,
      executer fuel h op p = Ret e /\
      Equipe.membres (Projet.equipe (apres e)) = membres_apres op p /\
      envois e = NotificationContext.notifier ctx message (membres_apres op p) /\
      map Envoi.destinataire (envois e) = membres_apres op p /\
      length (envois e) = length (membres_apres op p)) as Hfin.
  { intros e message He Hmem Henv. exists e, message.
    split; [done|]. split; [done|]. split; [done|].
    assert (map Envoi.destinataire (envois e) = membres_apres op p) as Hmap
      by (rewrite Henv; apply notifier_destinataires).
    split; [done|]. by rewrite <- Hmap, length_map. }
  destruct op; simpl in Hm; try done.
  - destruct Hv as [T HT]. eapply Hfin.
    + simpl. unfold Projet.ajouter_tache, deref. rewrite HT. reflexivity.
    + reflexivity.
    + simpl. unfold Projet.notifier. simpl. rewrite Hctx. reflexivity.
  - eapply Hfin; [reflexivity|reflexivity|].
    simpl. unfold Projet.notifier. simpl. rewrite Hctx. reflexivity.
  - eapply Hfin; [reflexivity|reflexivity|].
    simpl. unfold Projet.notifier. simpl. rewrite Hctx. reflexivity.
  - eapply Hfin; [reflexivity|reflexivity|].
    simpl. unfold Projet.notifier. simpl. rewrite Hctx. reflexivity.
  - eapply Hfin; [reflexivity|reflexivity|].
    simpl. unfold Projet.notifier. simpl. rewrite Hctx. reflexivity.
  - eapply Hfin; [reflexivity|reflexivity|].
    simpl. unfold Projet.notifier. simpl. rewrite Hctx. reflexivity.
Qed.

(** C7.  On a project on which [set_notification_strategy] was never
    called, each of the six mutating methods returns without raising, has
    applied its append or overwrite, and has made no delivery. *)
Theorem sans_strategie_aucun_envoi ops p fuel h op :
  historique ops p ->
  forallb (fun o => negb (est_set_notification_strategy o)) ops = true ->
  mutatrice op = true ->
  operation_valide h op ->
  exists e,
    executer fuel h op p = Ret e /\
    changement_applique op p (apres e) /\
    envois e = [].
Proof.
  intros Hhist Hops Hm Hv.
  pose proof (historique_sans_contexte ops p Hhist Hops) as Hctx.
  destruct op; simpl in Hm; try done.
  - destruct Hv as [T HT]. eexists. split.
    + simpl. unfold Projet.ajouter_tache, deref. rewrite HT. reflexivity.
    + split; [reflexivity|]. simpl. unfold Projet.notifier. simpl. by rewrite Hctx.
  - eexists. split; [reflexivity|]. split; [reflexivity|].
    simpl. unfold Projet.notifier. simpl. by rewrite Hctx.
  - eexists. split; [reflexivity|]. split; [reflexivity|].
    simpl. unfold Projet.notifier. simpl. by rewrite Hctx.
  - eexists. split; [reflexivity|]. split; [reflexivity|].
    simpl. unfold Projet.notifier. simpl. by rewrite Hctx.
  - eexists. split; [reflexivity|]. split; [reflexivity|].
    simpl. unfold Projet.notifier. simpl. by rewrite Hctx.
  - eexists. split; [reflexivity|]. split; [by split|].
    simpl. unfold Projet.notifier. simpl. by rewrite Hctx.
Qed.

(** C9.  On a project whose tasks are all in the store, [generer_rapport]
    returns a text and leaves the project as it was, so a second call right
    after the first returns the same text. *)
Theorem generer_rapport_deux_fois fuel h p :
  rapport_lisible h p ->
  exists texte e1 e2,
    executer fuel h GenererRapport p = Ret e1 /\
    executer fuel h GenererRapport (apres e1) = Ret e2 /\
    retour e1 = Some texte /\ retour e2 = Some texte /\
    apres e1 = p /\ apres e2 = p.
Proof.
  intros Hl. destruct (generer_rapport_ret h p Hl) as [texte Ht].
  exists texte, (mk_effet p [] (Some texte)), (mk_effet p [] (Some texte)).
  simpl. rewrite Ht. simpl. done.
Qed.

(** C10.  A call that returns leaves the version counter one higher when
    it is [enregistrer_changement] and unchanged when it is any other
    method; [enregistrer_changement] always returns. *)
Theorem version_modifiee_par_enregistrer_changement fuel h op p :
  (forall e, executer fuel h op p = Ret e ->
             Projet.version (apres e) = version_apres op p) /\
  (forall d maintenant, op = EnregistrerChangement d maintenant ->
     exists e, executer fuel h op p = Ret e /\
               Projet.version (apres e) = Projet.version p + 1).
Proof.
  split.
  - intros e. destruct op; simpl; try (by intros [= <-]).
    + unfold Projet.ajouter_tache. destruct (deref h tache); simpl; try done.
      by intros [= <-].
    + destruct (Projet.calculer_chemin_critique fuel h p) as [p'| | |] eqn:E;
        simpl; try done.
      intros [= <-]. simpl. unfold Projet.calculer_chemin_critique in E.
      destruct (all_paths _ _ _ _) as [r| | |]; simpl in E; try done.
      destruct (py_max fst r.1); simpl in E; try done. by injection E as <-.
    + destruct (Projet.generer_rapport h p); simpl; try done. by intros [= <-].
  - intros d maintenant ->. eexists. split; reflexivity.
Qed.
End Revendications.

(** ** The claims on the fixtures of the tests *)

Lemma notification_par_membre_temoin :
  exists e message,
    @executer TestProjet.runtime 0 ∅ (DefinirBudget 50000) TestProjet.projet_equipe
      = Ret e /\
    Equipe.membres (Projet.equipe (apres e))
      = [TestProjet.modou; TestProjet.christian] /\
    envois e = NotificationContext.notifier
                 (NotificationContext.init EmailNotificationStrategy) message
                 [TestProjet.modou; TestProjet.christian] /\
    map Envoi.destinataire (envois e) = [TestProjet.modou; TestProjet.christian] /\
    length (envois e) = 2%nat.
Proof.
  apply (@notification_par_membre TestProjet.runtime 0 ∅ (DefinirBudget 50000)
           TestProjet.projet_equipe
           (NotificationContext.init EmailNotificationStrategy)).
  - reflexivity.
  - exact I.
  - reflexivity.
Defined.

Lemma sans_strategie_aucun_envoi_temoin :
  exists e,
    @executer TestProjet.runtime 0 ∅
      (EnregistrerChangement "x" (datetime.make 2024 1 1))
      (Projet.ajouter_membre_equipe TestProjet.modou
         (Projet.init "P" "" (datetime.make 2024 1 1) (datetime.make 2024 12 31))).1
      = Ret e /\
    changement_applique (EnregistrerChangement "x" (datetime.make 2024 1 1))
      (Projet.ajouter_membre_equipe TestProjet.modou
         (Projet.init "P" "" (datetime.make 2024 1 1) (datetime.make 2024 12 31))).1
      (apres e) /\
    envois e = [].
Proof.
  apply (@sans_strategie_aucun_envoi TestProjet.runtime
           ([] ++ [AjouterMembreEquipe TestProjet.modou])).
  - apply (@historique_ret TestProjet.runtime [] _ 0%nat ∅
             (AjouterMembreEquipe TestProjet.modou) _
             (@historique_init TestProjet.runtime "P" ""
                (datetime.make 2024 1 1) (datetime.make 2024 12 31))
             eq_refl).
  - reflexivity.
  - reflexivity.
  - exact I.
Defined.

Lemma generer_rapport_deux_fois_temoin :
  exists texte e1 e2,
    @executer TestProjet.runtime 0 TestProjet.tas_test GenererRapport
      TestProjet.projet_taches = Ret e1 /\
    @executer TestProjet.runtime 0 TestProjet.tas_test GenererRapport (apres e1)
      = Ret e2 /\
    retour e1 = Some texte /\ retour e2 = Some texte /\
    apres e1 = TestProjet.projet_taches /\ apres e2 = TestProjet.projet_taches.
Proof.
  apply (@generer_rapport_deux_fois TestProjet.runtime 0 TestProjet.tas_test
           TestProjet.projet_taches).
  intros t Ht. simpl in Ht.
  repeat (apply elem_of_cons in Ht as [->|Ht]); try (by eexists).
  by apply elem_of_nil in Ht.
Defined.

Lemma version_modifiee_par_enregistrer_changement_temoin :
  Projet.version
    (Projet.ajouter_membre_equipe TestProjet.modou TestProjet.projet).1 = 1 /\
  exists e,
    @executer TestProjet.runtime 0 ∅
      (EnregistrerChangement "x" (datetime.make 2024 1 1)) TestProjet.projet = Ret e /\
    Projet.version (apres e) = 1 + 1.
Proof.
  split.
  - exact (proj1 (@version_modifiee_par_enregistrer_changement TestProjet.runtime
                    0 ∅ (AjouterMembreEquipe TestProjet.modou) TestProjet.projet)
             _ eq_refl).
  - exact (proj2 (@version_modifiee_par_enregistrer_changement TestProjet.runtime
                    0 ∅ (EnregistrerChangement "x" (datetime.make 2024 1 1))
                    TestProjet.projet)
             "x"%string (datetime.make 2024 1 1) eq_refl).
Defined.

(** ** The model at work on the sample graphs *)

(** [t.ajouter_dependance(t)] turns a task without predecessor into the
    self-referential graph. *)
Lemma ajouter_dependance_boucle :
  Tache.ajouter_dependance 1 1 (<[1%nat := Exemples.tache 11 "A" 1 8 []]> ∅)
  = Ret Exemples.tas_boucle.
Proof. vm_compute. reflexivity. Qed.

(** Equal positive lengths: B wins. *)
Lemma losange_egal_chemin_critique :
  Projet.chemin_critique <$>
    (match Projet.calculer_chemin_critique 3 Exemples.losange_egal
             (Exemples.projet_de [4%nat]) with
     | Ret p => Some p
     | _ => None
     end) = Some [2; 4]%nat.
Proof. vm_compute. reflexivity. Qed.

(** C strictly longer than B: C wins. *)
Lemma losange_c_plus_long_chemin_critique :
  Projet.chemin_critique <$>
    (match Projet.calculer_chemin_critique 3 (Exemples.losange 7 3 7)
             (Exemples.projet_de [4%nat]) with
     | Ret p => Some p
     | _ => None
     end) = Some [3; 4]%nat.
Proof. vm_compute. reflexivity. Qed.

(** [test_generer_rapport]: the report after the calls of the test holds
    every line the test looks for. *)
Lemma test_generer_rapport :
  (p ← @derouler TestProjet.runtime 1 (<[1%nat := TestProjet.tache1]> ∅)
         TestProjet.scenario TestProjet.projet;
   @Projet.generer_rapport TestProjet.runtime (<[1%nat := TestProjet.tache1]> ∅) p) =
  Ret ("Rapport d'activités du Projet 'Nouveau Produit':" +:+ Projet.nl
       +:+ "Version: 2" +:+ Projet.nl
       +:+ "Dates: 2024-01-01 00:00:00 à 2024-12-31 00:00:00" +:+ Projet.nl
       +:+ "Budget: 50000.0 Unité Monétaire" +:+ Projet.nl
       +:+ "Équipe:" +:+ Projet.nl
       +:+ "- Brahim (Chef de projet)" +:+ Projet.nl
       +:+ "- Pape (Développeur)" +:+ Projet.nl
       +:+ "Tâches:" +:+ Projet.nl
       +:+ "- Analyse des besoins (2024-01-01 00:00:00 à 2024-01-31 00:00:00)"
       +:+ ", Responsable: Brahim, Statut: Terminée" +:+ Projet.nl
       +:+ "Jalons:" +:+ Projet.nl
       +:+ "- Phase 1 terminée (2024-01-31 00:00:00)" +:+ Projet.nl
       +:+ "Risques:" +:+ Projet.nl
       +:+ "- Retard de livraison (Probabilité: 0.3, Impact: Élevé)" +:+ Projet.nl
       +:+ "Chemin Critique:" +:+ Projet.nl
       +:+ "- Analyse des besoins (2024-01-01 00:00:00 à 2024-01-31 00:00:00)"
       +:+ Projet.nl).
Proof. vm_compute. reflexivity. Qed.

(** * Further properties *)

(** ** The first maximum of a list *)

Lemma premier_maximum {A} (key : A -> Z) (l : list A) (x : A) :
  let m := fold_left (fun best y => if key y >? key best then y else best) l x in
  (m = x /\ forall y, y ∈ l -> key y <= key x)
  \/ exists i, l !! i = Some m /\ key x < key m /\
       forall j y, l !! j = Some y ->
         key y <= key m /\ ((j < i)%nat -> key y < key m).
Proof.
  revert x. induction l as [|y l IH]; intros x; simpl.
  { left. split; [done|]. intros y Hy. by apply elem_of_nil in Hy. }
  destruct (Z.gtb_spec (key y) (key x)) as [Hgt|Hle].
  - destruct (IH y) as [[Hm Hall]|(i & Hi & Hlt & Hothers)].
    + right. exists 0%nat. rewrite Hm. simpl. split; [done|]. split; [lia|].
      intros [|j] z Hz; simpl in Hz.
      * injection Hz as <-. split; [lia|lia].
      * split; [|lia]. apply Hall. by eapply list_elem_of_lookup_2.
    + right. exists (S i). simpl. split; [done|]. split; [lia|].
      intros [|j] z Hz; simpl in Hz.
      * injection Hz as <-. split; [lia|]. intros _. lia.
      * destruct (Hothers j z Hz) as [H1 H2]. split; [done|]. intros ?. apply H2. lia.
  - destruct (IH x) as [[Hm Hall]|(i & Hi & Hlt & Hothers)].
    + left. split; [done|]. intros z [->|Hz]%elem_of_cons; [lia|by apply Hall].
    + right. exists (S i). simpl. split; [done|]. split; [done|].
      intros [|j] z Hz; simpl in Hz.
      * injection Hz as <-. split; [lia|]. intros _. lia.
      * destruct (Hothers j z Hz) as [H1 H2]. split; [done|]. intros ?. apply H2. lia.
Qed.

(** [py_max] returns the first of the elements whose key is greatest. *)
Lemma py_max_premier {A} (key : A -> Z) (l : list A) (m : A) :
  py_max key l = Ret m ->
  exists i, l !! i = Some m /\
    forall j y, l !! j = Some y ->
      key y <= key m /\ ((j < i)%nat -> key y < key m).
Proof.
  destruct l as [|x l]; [done|]. simpl. intros [= <-].
  destruct (premier_maximum key l x) as [[Hm Hall]|(i & Hi & Hlt & Hothers)].
  - exists 0%nat. rewrite Hm. split; [done|].
    intros [|j] y Hy; simpl in Hy.
    + injection Hy as <-. split; lia.
    + split; [|lia]. apply Hall. by eapply list_elem_of_lookup_2.
  - exists (S i). split; [done|].
    intros [|j] y Hy; simpl in Hy.
    + injection Hy as <-. split; [lia|]. intros _. lia.
    + destruct (Hothers j y Hy) as [H1 H2]. split; [done|]. intros ?. apply H2. lia.
Qed.

(** ** Memoised tasks are stored and well founded *)

Lemma memo_fonde_initial h : memo_fonde h etat_initial.
Proof. intros x [e He]. simpl in He. by rewrite lookup_empty in He. Qed.

Lemma memo_fonde_memoriser h t r st :
  memo_fonde h st -> is_Some (h !! t) -> Acc (precede h) t ->
  memo_fonde h (memoriser t r st).
Proof.
  intros Hf Ht Hacc x. simpl. destruct (decide (t = x)) as [->|Hne]; [auto|].
  rewrite lookup_insert_ne by exact Hne. apply Hf.
Qed.

Lemma Forall2_element_gauche {A B} (P : A -> B -> Prop) l k x :
  Forall2 P l k -> x ∈ l -> exists y, y ∈ k /\ P x y.
Proof.
  intros HF [i Hi]%list_elem_of_lookup_1.
  destruct (Forall2_lookup_l _ _ _ _ _ HF Hi) as (y & Hy & HP).
  exists y. split; [by eapply list_elem_of_lookup_2|done].
Qed.

Lemma boucle_dependances_fonde h appel :
  (forall d st r st', invariant h st -> memo_fonde h st ->
                      appel d st = Ret (r, st') ->
                      appel_correct h d st r st' /\ memo_fonde h st') ->
  forall deps ml mp st b,
    invariant h st -> memo_fonde h st ->
    boucle_dependances appel deps ml mp st = Ret b ->
    memo_fonde h b.2.
Proof.
  intros Ha. induction deps as [|d ds IH]; intros ml mp st b Hi Hf; simpl.
  - intros [= <-]. exact Hf.
  - destruct (appel d st) as [[[dl dp] st1]| | |] eqn:E; simpl; try discriminate.
    destruct (Ha _ _ _ _ Hi Hf E) as ((Hi1 & _) & Hf1).
    destruct (dl >? ml); apply IH; assumption.
Qed.

Lemma find_longest_path_fonde h fuel :
  forall t st r st', invariant h st -> memo_fonde h st ->
    find_longest_path fuel h t st = Ret (r, st') ->
    memo_fonde h st'.
Proof.
  induction fuel as [|fuel IH]; intros t st r st' Hi Hf; [discriminate|].
  destruct (memo st !! t) as [r0|] eqn:Hm.
  { rewrite (find_longest_path_memo _ _ _ _ _ Hm). intros [= <- <-]. exact Hf. }
  destruct (h !! t) as [T|] eqn:HT; cycle 1.
  { simpl. rewrite Hm. unfold deref. rewrite HT. discriminate. }
  destruct (Tache.dependances T) as [|d ds] eqn:Hd.
  { rewrite (find_longest_path_source _ _ _ _ _ Hm HT Hd). intros [= <- <-].
    apply memo_fonde_memoriser; [exact Hf|by eexists|].
    constructor. intros y (T' & HT' & Hy). rewrite HT in HT'. injection HT' as <-.
    rewrite Hd in Hy. by apply elem_of_nil in Hy. }
  rewrite (find_longest_path_noeud _ _ _ _ _ Hm HT) by (rewrite Hd; done).
  destruct (boucle_dependances _ _ _ _ _) as [b| | |] eqn:Hb; simpl;
    try discriminate.
  intros [= <- <-].
  assert (Happel : forall d st r st', invariant h st -> memo_fonde h st ->
            find_longest_path fuel h d st = Ret (r, st') ->
            appel_correct h d st r st' /\ memo_fonde h st').
  { intros d0 st0 r0 st0' Hi0 Hf0 E.
    split; [eapply find_longest_path_correct; eassumption|].
    eapply IH; eassumption. }
  pose proof (boucle_dependances_fonde h _ Happel _ _ _ _ _ Hi Hf Hb) as Hfb.
  destruct (boucle_dependances_correct h _ (find_longest_path_correct h fuel)
              _ _ _ _ _ Hi Hb) as (_ & _ & (rs & Hrs & _) & _).
  apply memo_fonde_memoriser; [exact Hfb|by eexists|].
  constructor. intros y (T' & HT' & Hy). rewrite HT in HT'. injection HT' as <-.
  destruct (Forall2_element_gauche _ _ _ _ Hrs Hy) as (e & _ & He).
  apply Hfb. rewrite He. by eexists.
Qed.

Lemma all_paths_fonde h fuel :
  forall l st rs st', invariant h st -> memo_fonde h st ->
    all_paths fuel h l st = Ret (rs, st') -> memo_fonde h st'.
Proof.
  induction l as [|t l IH]; intros st rs st' Hi Hf; simpl.
  - intros [= <- <-]. exact Hf.
  - destruct (find_longest_path fuel h t st) as [[e st1]| | |] eqn:E; simpl;
      try discriminate.
    destruct (find_longest_path_correct h fuel _ _ _ _ Hi E) as (Hi1 & _).
    pose proof (find_longest_path_fonde h fuel _ _ _ _ Hi Hf E) as Hf1.
    destruct (all_paths fuel h l st1) as [[es st2]| | |] eqn:E'; simpl;
      try discriminate.
    intros [= <- <-]. eapply IH; eassumption.
Qed.

(** On a well-posed project every sufficient depth bound gives a run, whose
    final memo satisfies the invariants. *)
Lemma execution_bien_posee h p fuel :
  bien_pose h p -> (size (dom h) < fuel)%nat ->
  exists rs st,
    all_paths fuel h (Projet.taches p) etat_initial = Ret (rs, st) /\
    invariant h st /\ memo_fonde h st /\
    Forall2 (fun t r => memo st !! t = Some r) (Projet.taches p) rs.
Proof.
  intros (Hclos & Hacyc & Hin) Hfuel.
  destruct (all_paths_ret fuel h (Projet.taches p) etat_initial) as [[rs st] Hrun].
  { intros t st Ht.
    apply (find_longest_path_termine h Hclos Hacyc fuel ∅); auto.
    - apply empty_subseteq.
    - intros s Hs. by apply not_elem_of_empty in Hs.
    - rewrite size_empty. lia. }
  exists rs, st. split; [exact Hrun|].
  destruct (all_paths_correct h fuel _ _ _ _ (invariant_initial h) Hrun)
    as (Hi & _ & Hl).
  split; [exact Hi|]. split; [|exact Hl].
  exact (all_paths_fonde h fuel _ _ _ _ (invariant_initial h) (memo_fonde_initial h) Hrun).
Qed.

(** ** What the memo entries are *)

Lemma chaine_snoc h l d x :
  last l = Some d -> arete h x d -> chaine h l -> chaine h (l ++ [x]).
Proof.
  intros Hl Hxd. induction l as [|a [|b l'] IH]; simpl in *.
  - discriminate.
  - injection Hl as ->. auto.
  - intros [Hab Hc]. split; [exact Hab|]. apply IH; assumption.
Qed.

Lemma somme_apports_snoc h l x :
  somme_apports h (l ++ [x]) = somme_apports h l + apport h x.
Proof.
  unfold somme_apports. induction l as [|a l IH]; simpl; [lia|]. rewrite IH. lia.
Qed.

(** The recurrence the loop computes, read on a coherent memo. *)
Lemma memo_coherent_recurrence h st x e T :
  memo_coherent h st -> memo st !! x = Some e -> h !! x = Some T ->
  (Tache.dependances T = [] /\ e = (0, [x]))
  \/ (Tache.dependances T <> [] /\
      (forall d, d ∈ Tache.dependances T -> is_Some (memo st !! d)) /\
      ((e = (Tache.jours T, [x]) /\
        forall d ed, d ∈ Tache.dependances T -> memo st !! d = Some ed -> ed.1 <= 0)
       \/ exists i d ed,
            Tache.dependances T !! i = Some d /\ memo st !! d = Some ed /\
            0 < ed.1 /\ e = (ed.1 + Tache.jours T, ed.2 ++ [x]) /\
            forall j d' e', Tache.dependances T !! j = Some d' ->
              memo st !! d' = Some e' ->
              e'.1 <= ed.1 /\ ((j < i)%nat -> e'.1 < ed.1))).
Proof.
  intros Hcoh He HT. specialize (Hcoh x e T He HT).
  destruct (Tache.dependances T) as [|d0 ds] eqn:Hd; [by left|].
  right. split; [done|]. rewrite <- Hd in *. clear Hd d0 ds.
  destruct Hcoh as (rs & Hrs & ->). split.
  { intros d Hdin. destruct (Forall2_element_gauche _ _ _ _ Hrs Hdin) as (r & _ & Hr).
    by rewrite Hr. }
  destruct (premier_maximum fst rs (0, [])) as [[Hm Hall]|(i & Hi & Hlt & Hothers)].
  - left. unfold meilleur, pas. rewrite Hm. simpl. split; [done|].
    intros d ed [j Hj]%list_elem_of_lookup_1 Hed.
    destruct (Forall2_lookup_l _ _ _ _ _ Hrs Hj) as (r & Hr & Hdr).
    rewrite Hed in Hdr. injection Hdr as <-.
    apply (Hall ed). by eapply list_elem_of_lookup_2.
  - right. fold pas in Hi, Hlt, Hothers. fold (meilleur rs) in Hi, Hlt, Hothers.
    destruct (Forall2_lookup_r _ _ _ _ _ Hrs Hi) as (d & Hd & Hdm).
    exists i, d, (meilleur rs). split; [done|]. split; [done|]. split; [done|].
    split; [done|].
    intros j d' e' Hj He'.
    destruct (Forall2_lookup_l _ _ _ _ _ Hrs Hj) as (r & Hr & Hdr).
    rewrite He' in Hdr. injection Hdr as <-. by apply (Hothers j).
Qed.

(** Each entry holds a path that ends with its task, follows predecessor
    references, stays within the memo, and whose tasks' contributions add up
    to the length. *)
Lemma entree_bien_formee h st :
  memo_coherent h st -> memo_fonde h st ->
  forall x e, memo st !! x = Some e ->
    last e.2 = Some x /\ chaine h e.2 /\
    (forall y, y ∈ e.2 -> is_Some (memo st !! y)) /\
    e.1 = somme_apports h e.2.
Proof.
  intros Hcoh Hf x e He.
  assert (Acc (precede h) x) as Hacc by (apply Hf; rewrite He; by eexists).
  revert e He. induction Hacc as [x _ IH]. intros e He.
  destruct (Hf x) as [[T HT] _]; [rewrite He; by eexists|].
  assert (apport h x = match Tache.dependances T with [] => 0 | _ => Tache.jours T end)
    as Hap by (unfold apport; by rewrite HT).
  destruct (memo_coherent_recurrence h st x e T Hcoh He HT)
    as [[Hd ->]|(Hd & Hall & [[-> _]|(i & d & ed & Hi & Hed & Hpos & -> & _)])].
  - rewrite Hd in Hap. simpl. split; [done|]. split; [done|]. split.
    + intros y ->%list_elem_of_singleton. rewrite He. by eexists.
    + unfold somme_apports. simpl. lia.
  - simpl. split; [done|]. split; [done|]. split.
    + intros y ->%list_elem_of_singleton. rewrite He. by eexists.
    + unfold somme_apports. simpl. rewrite Hap.
      destruct (Tache.dependances T); [done|lia].
  - assert (arete h x d) as Hxd.
    { exists T. split; [done|]. by eapply list_elem_of_lookup_2. }
    destruct (IH d Hxd ed Hed) as (Hlast & Hch & Hin & Hsum).
    simpl. split; [apply last_snoc|]. split; [by eapply chaine_snoc|]. split.
    + intros y [Hy| ->%list_elem_of_singleton]%elem_of_app; [auto|].
      rewrite He. by eexists.
    + rewrite somme_apports_snoc, <- Hsum, Hap.
      destruct (Tache.dependances T); [done|lia].
Qed.

(** Two coherent memos give a task the same entry. *)
Lemma memo_coherent_unique h st1 st2 :
  memo_coherent h st1 -> memo_coherent h st2 -> memo_fonde h st1 ->
  forall x e1 e2, memo st1 !! x = Some e1 -> memo st2 !! x = Some e2 -> e1 = e2.
Proof.
  intros Hc1 Hc2 Hf x e1 e2 He1.
  assert (Acc (precede h) x) as Hacc by (apply Hf; rewrite He1; by eexists).
  revert e1 e2 He1. induction Hacc as [x _ IH]. intros e1 e2 He1 He2.
  destruct (Hf x) as [[T HT] _]; [rewrite He1; by eexists|].
  specialize (Hc1 x e1 T He1 HT). specialize (Hc2 x e2 T He2 HT).
  destruct (Tache.dependances T) as [|d0 ds] eqn:Hd; [congruence|].
  rewrite <- Hd in *.
  destruct Hc1 as (rs1 & Hrs1 & ->). destruct Hc2 as (rs2 & Hrs2 & ->).
  assert (rs1 = rs2) as ->; [|done].
  assert (forall d, d ∈ Tache.dependances T -> arete h x d) as Hedge
    by (intros d Hdin; exists T; done).
  clear Hd d0 ds He1 He2. revert rs1 rs2 Hrs1 Hrs2 Hedge.
  induction (Tache.dependances T) as [|d ds IHds]; intros rs1 rs2 Hrs1 Hrs2 Hedge.
  - apply Forall2_nil_inv_l in Hrs1 as ->. by apply Forall2_nil_inv_l in Hrs2 as ->.
  - apply Forall2_cons_inv_l in Hrs1 as (r1 & rs1' & Hr1 & Hrs1 & ->).
    apply Forall2_cons_inv_l in Hrs2 as (r2 & rs2' & Hr2 & Hrs2 & ->).
    f_equal.
    + apply (IH d); [apply Hedge; by constructor|done|done].
    + apply IHds; [done|done|]. intros; apply Hedge; by constructor.
Qed.

(** A memo closed under predecessors holds every task reachable from one it
    holds. *)
Lemma memo_coherent_clos h st t x :
  memo_coherent h st -> memo_fonde h st ->
  is_Some (memo st !! t) -> rtc (arete h) t x -> is_Some (memo st !! x).
Proof.
  intros Hcoh Hf Ht Hreach. induction Hreach as [|t y z (T & HT & Hy) _ IH]; [done|].
  apply IH. destruct Ht as [e He].
  destruct (memo_coherent_recurrence h st t e T Hcoh He HT)
    as [[Hd _]|(_ & Hall & _)].
  - rewrite Hd in Hy. by apply elem_of_nil in Hy.
  - by apply Hall.
Qed.

Lemma all_paths_atteint h fuel :
  forall l st rs st', invariant h st ->
    all_paths fuel h l st = Ret (rs, st') ->
    forall x, is_Some (memo st' !! x) ->
      is_Some (memo st !! x) \/ exists t, t ∈ l /\ rtc (arete h) t x.
Proof.
  induction l as [|t l IH]; intros st rs st' Hi; simpl.
  - intros [= <- <-]. auto.
  - destruct (find_longest_path fuel h t st) as [[e st1]| | |] eqn:E; simpl; try done.
    destruct (find_longest_path_correct h fuel _ _ _ _ Hi E) as (Hi1 & _ & _ & Hr1).
    destruct (all_paths fuel h l st1) as [[es st2]| | |] eqn:E'; simpl; try done.
    intros [= <- <-] x Hx.
    destruct (IH _ _ _ Hi1 E' x Hx) as [Hx1|(t' & Ht' & Hreach)].
    + destruct (Hr1 x Hx1) as [?|?]; [by left|].
      right. exists t. split; [by constructor|done].
    + right. exists t'. split; [by constructor|done].
Qed.

Lemma chaine_tc h x l :
  chaine h (x :: l) -> forall y, y ∈ l -> tc (arete h) y x.
Proof.
  revert x. induction l as [|a l IH]; intros x Hc y Hy.
  - by apply elem_of_nil in Hy.
  - destruct Hc as [Hax Hc]. apply elem_of_cons in Hy as [->|Hy].
    + by apply tc_once.
    + eapply tc_r; [|exact Hax]. by apply IH.
Qed.

Lemma chaine_NoDup h l : acyclique h -> chaine h l -> NoDup l.
Proof.
  intros Hacyc. induction l as [|x l IH]; intros Hc; [constructor|].
  constructor.
  - intros Hx. apply (Hacyc x). by eapply chaine_tc.
  - apply IH. destruct l as [|y l]; [done|]. by destruct Hc.
Qed.

(** On a well-posed project with at least one task, the call returns the
    project with the path of the entry that [max] selects. *)
Lemma calculer_chemin_critique_memo h p fuel :
  bien_pose h p -> Projet.taches p <> [] -> (size (dom h) < fuel)%nat ->
  exists rs st m,
    all_paths fuel h (Projet.taches p) etat_initial = Ret (rs, st) /\
    invariant h st /\ memo_fonde h st /\
    Forall2 (fun t r => memo st !! t = Some r) (Projet.taches p) rs /\
    py_max fst rs = Ret m /\
    Projet.calculer_chemin_critique fuel h p
    = Ret (Projet.set_chemin_critique m.2 p).
Proof.
  intros Hbp Hne Hfuel.
  destruct (execution_bien_posee h p fuel Hbp Hfuel) as (rs & st & Hrun & Hi & Hf & Hl).
  destruct rs as [|r rs].
  { apply Forall2_nil_inv_r in Hl. done. }
  exists (r :: rs), st. eexists. split; [exact Hrun|]. split; [exact Hi|].
  split; [exact Hf|]. split; [exact Hl|]. split; [reflexivity|].
  unfold Projet.calculer_chemin_critique. rewrite Hrun. reflexivity.
Qed.

Lemma bien_pose_tas_test l :
  (forall t, t ∈ l -> t = 1%nat \/ t = 2%nat) ->
  bien_pose TestProjet.tas_test (Exemples.projet_de l).
Proof.
  intros Hl. split; [exact tas_test_clos|]. split; [exact tas_test_acyclique|].
  intros t Ht. destruct (Hl t Ht) as [-> | ->]; by eexists.
Qed.

Lemma bien_pose_losange ja jb jc l :
  (forall t, t ∈ l -> (1 <= t <= 4)%nat) ->
  bien_pose (Exemples.losange ja jb jc) (Exemples.projet_de l).
Proof.
  intros Hl. split; [apply losange_clos|]. split; [apply losange_acyclique|].
  intros t Ht. specialize (Hl t Ht).
  destruct t as [|[|[|[|[|t]]]]]; try lia; by eexists.
Qed.

(** ** The critical-path computation on well-posed projects *)

(** X1.  A run computes exactly the tasks that can be reached from the
    project's task list by predecessor references, and each of them once,
    however often it is listed or referred to. *)
Theorem taches_calculees_une_fois h p fuel :
  bien_pose h p -> (size (dom h) < fuel)%nat ->
  exists rs st,
    all_paths fuel h (Projet.taches p) etat_initial = Ret (rs, st) /\
    NoDup (evalues st) /\
    forall x, x ∈ evalues st <->
              exists t, t ∈ Projet.taches p /\ rtc (arete h) t x.
Proof.
  intros Hbp Hfuel.
  destruct (execution_bien_posee h p fuel Hbp Hfuel)
    as (rs & st & Hrun & Hi & Hf & Hl).
  exists rs, st. split; [exact Hrun|].
  destruct Hi as (Hs & Hcoh & Hnd & Hkeys). split; [exact Hnd|].
  intros x. rewrite Hkeys. split.
  - intros Hx.
    destruct (all_paths_atteint h fuel _ _ _ _ (invariant_initial h) Hrun x Hx)
      as [[e He]|?]; [|done].
    simpl in He. by rewrite lookup_empty in He.
  - intros (t & Ht & Hreach).
    destruct (Forall2_element_gauche _ _ _ _ Hl Ht) as (r & _ & Hr).
    eapply memo_coherent_clos; [exact Hcoh|exact Hf| |exact Hreach].
    by rewrite Hr.
Qed.

Lemma taches_calculees_une_fois_temoin :
  exists rs st,
    all_paths 5 (Exemples.losange 7 5 5) [4; 4; 2]%nat etat_initial = Ret (rs, st) /\
    NoDup (evalues st) /\
    forall x, x ∈ evalues st <->
              exists t, t ∈ [4; 4; 2]%nat /\ rtc (arete (Exemples.losange 7 5 5)) t x.
Proof.
  apply (taches_calculees_une_fois (Exemples.losange 7 5 5)
           (Exemples.projet_de [4; 4; 2]%nat) 5).
  - apply bien_pose_losange. intros t Ht.
    repeat (apply elem_of_cons in Ht as [->|Ht]); try lia.
    by apply elem_of_nil in Ht.
  - vm_compute. lia.
Defined.

(** X2.  In the memo a run leaves, a task without predecessors has length 0
    and itself as path.  A task with predecessors has all of them memoised;
    if none has a positive length, its length is its own span and its path is
    itself alone; otherwise its length is its span plus the length of the first
    predecessor of greatest length, and its path is that predecessor's path
    followed by itself. *)
Theorem recurrence_des_longueurs h p fuel :
  bien_pose h p -> (size (dom h) < fuel)%nat ->
  exists rs st,
    all_paths fuel h (Projet.taches p) etat_initial = Ret (rs, st) /\
    Forall2 (fun t r => memo st !! t = Some r) (Projet.taches p) rs /\
    forall x e T, memo st !! x = Some e -> h !! x = Some T ->
      (Tache.dependances T = [] /\ e = (0, [x]))
      \/ (Tache.dependances T <> [] /\
          (forall d, d ∈ Tache.dependances T -> is_Some (memo st !! d)) /\
          ((e = (Tache.jours T, [x]) /\
            forall d ed, d ∈ Tache.dependances T -> memo st !! d = Some ed ->
                         ed.1 <= 0)
           \/ exists i d ed,
                Tache.dependances T !! i = Some d /\ memo st !! d = Some ed /\
                0 < ed.1 /\ e = (ed.1 + Tache.jours T, ed.2 ++ [x]) /\
                forall j d' e', Tache.dependances T !! j = Some d' ->
                  memo st !! d' = Some e' ->
                  e'.1 <= ed.1 /\ ((j < i)%nat -> e'.1 < ed.1))).
Proof.
  intros Hbp Hfuel.
  destruct (execution_bien_posee h p fuel Hbp Hfuel)
    as (rs & st & Hrun & (_ & Hcoh & _) & Hf & Hl).
  exists rs, st. split; [exact Hrun|]. split; [exact Hl|].
  intros x e T He HT. exact (memo_coherent_recurrence h st x e T Hcoh He HT).
Qed.

Lemma recurrence_des_longueurs_temoin :
  exists rs st,
    all_paths 3 TestProjet.tas_test [2%nat] etat_initial = Ret (rs, st) /\
    Forall2 (fun t r => memo st !! t = Some r) [2%nat] rs /\
    forall x e T, memo st !! x = Some e -> TestProjet.tas_test !! x = Some T ->
      (Tache.dependances T = [] /\ e = (0, [x]))
      \/ (Tache.dependances T <> [] /\
          (forall d, d ∈ Tache.dependances T -> is_Some (memo st !! d)) /\
          ((e = (Tache.jours T, [x]) /\
            forall d ed, d ∈ Tache.dependances T -> memo st !! d = Some ed ->
                         ed.1 <= 0)
           \/ exists i d ed,
                Tache.dependances T !! i = Some d /\ memo st !! d = Some ed /\
                0 < ed.1 /\ e = (ed.1 + Tache.jours T, ed.2 ++ [x]) /\
                forall j d' e', Tache.dependances T !! j = Some d' ->
                  memo st !! d' = Some e' ->
                  e'.1 <= ed.1 /\ ((j < i)%nat -> e'.1 < ed.1))).
Proof.
  apply (recurrence_des_longueurs TestProjet.tas_test (Exemples.projet_de [2%nat]) 3).
  - apply bien_pose_tas_test. intros t Ht.
    apply elem_of_cons in Ht as [->|Ht]; [by right|]. by apply elem_of_nil in Ht.
  - vm_compute. lia.
Defined.

(** X3.  The critical path that [calculer_chemin_critique] stores is not
    empty, ends with a task of the project, lists no task twice, holds only
    stored tasks, and each of its tasks is a predecessor of the next. *)
Theorem chemin_critique_est_une_chaine h p fuel :
  bien_pose h p -> Projet.taches p <> [] -> (size (dom h) < fuel)%nat ->
  exists p',
    Projet.calculer_chemin_critique fuel h p = Ret p' /\
    (exists t, t ∈ Projet.taches p /\ last (Projet.chemin_critique p') = Some t) /\
    chaine h (Projet.chemin_critique p') /\
    NoDup (Projet.chemin_critique p') /\
    forall y, y ∈ Projet.chemin_critique p' -> is_Some (h !! y).
Proof.
  intros Hbp Hne Hfuel.
  destruct (calculer_chemin_critique_memo h p fuel Hbp Hne Hfuel)
    as (rs & st & m & Hrun & (_ & Hcoh & _) & Hf & Hl & Hmax & Hcalc).
  exists (Projet.set_chemin_critique m.2 p). split; [exact Hcalc|]. simpl.
  destruct (py_max_premier fst rs m Hmax) as (i & Hi & _).
  destruct (Forall2_lookup_r _ _ _ _ _ Hl Hi) as (t & Ht & Htm).
  destruct (entree_bien_formee h st Hcoh Hf t m Htm) as (Hlast & Hch & Hin & _).
  split; [exists t; split; [by eapply list_elem_of_lookup_2|done]|].
  split; [done|]. split; [eapply chaine_NoDup; [apply Hbp|done]|].
  intros y Hy. by apply Hf, Hin.
Qed.

Lemma chemin_critique_est_une_chaine_temoin :
  exists p',
    Projet.calculer_chemin_critique 5 (Exemples.losange 7 3 7)
      (Exemples.projet_de [1; 2; 3; 4]%nat) = Ret p' /\
    (exists t, t ∈ [1; 2; 3; 4]%nat /\ last (Projet.chemin_critique p') = Some t) /\
    chaine (Exemples.losange 7 3 7) (Projet.chemin_critique p') /\
    NoDup (Projet.chemin_critique p') /\
    forall y, y ∈ Projet.chemin_critique p' ->
              is_Some (Exemples.losange 7 3 7 !! y).
Proof.
  apply (chemin_critique_est_une_chaine (Exemples.losange 7 3 7)
           (Exemples.projet_de [1; 2; 3; 4]%nat) 5).
  - apply bien_pose_losange. intros t Ht.
    repeat (apply elem_of_cons in Ht as [->|Ht]); try lia.
    by apply elem_of_nil in Ht.
  - discriminate.
  - vm_compute. lia.
Defined.

(** X4.  The length a run gives a task of the project is the sum, over the
    tasks of its path, of their spans in days, the tasks without predecessors
    counting for nothing. *)
Theorem longueur_somme_des_apports h p fuel :
  bien_pose h p -> (size (dom h) < fuel)%nat ->
  exists rs st,
    all_paths fuel h (Projet.taches p) etat_initial = Ret (rs, st) /\
    length rs = length (Projet.taches p) /\
    Forall (fun r => r.1 = somme_apports h r.2) rs.
Proof.
  intros Hbp Hfuel.
  destruct (execution_bien_posee h p fuel Hbp Hfuel)
    as (rs & st & Hrun & (_ & Hcoh & _) & Hf & Hl).
  exists rs, st. split; [exact Hrun|].
  split; [symmetry; by eapply Forall2_length|].
  apply Forall_forall. intros r [i Hi]%list_elem_of_lookup_1.
  destruct (Forall2_lookup_r _ _ _ _ _ Hl Hi) as (t & _ & Htr).
  by destruct (entree_bien_formee h st Hcoh Hf t r Htr) as (_ & _ & _ & ?).
Qed.

Lemma longueur_somme_des_apports_temoin :
  exists rs st,
    all_paths 5 (Exemples.losange 7 5 5) [4%nat] etat_initial = Ret (rs, st) /\
    length rs = 1%nat /\
    Forall (fun r => r.1 = somme_apports (Exemples.losange 7 5 5) r.2) rs.
Proof.
  apply (longueur_somme_des_apports (Exemples.losange 7 5 5)
           (Exemples.projet_de [4%nat]) 5).
  - apply bien_pose_losange. intros t Ht.
    repeat (apply elem_of_cons in Ht as [->|Ht]); try lia.
    by apply elem_of_nil in Ht.
  - vm_compute. lia.
Defined.

(** X5.  The entry of a task does not depend on the project it is computed
    for: two runs on the same store give every task they both compute the
    same length and path, and two projects that list the same tasks, in any
    order and any number of times, end with the same memo. *)
Theorem entrees_independantes_de_la_liste h p1 p2 fuel1 fuel2 :
  bien_pose h p1 -> bien_pose h p2 ->
  (size (dom h) < fuel1)%nat -> (size (dom h) < fuel2)%nat ->
  exists rs1 st1 rs2 st2,
    all_paths fuel1 h (Projet.taches p1) etat_initial = Ret (rs1, st1) /\
    all_paths fuel2 h (Projet.taches p2) etat_initial = Ret (rs2, st2) /\
    (forall x e1 e2, memo st1 !! x = Some e1 -> memo st2 !! x = Some e2 -> e1 = e2) /\
    ((forall t, t ∈ Projet.taches p1 <-> t ∈ Projet.taches p2) ->
     memo st1 = memo st2).
Proof.
  intros Hbp1 Hbp2 Hfuel1 Hfuel2.
  destruct (execution_bien_posee h p1 fuel1 Hbp1 Hfuel1)
    as (rs1 & st1 & Hrun1 & Hi1 & Hf1 & Hl1).
  destruct (execution_bien_posee h p2 fuel2 Hbp2 Hfuel2)
    as (rs2 & st2 & Hrun2 & Hi2 & Hf2 & Hl2).
  exists rs1, st1, rs2, st2. split; [exact Hrun1|]. split; [exact Hrun2|].
  pose proof Hi1 as (_ & Hc1 & _). pose proof Hi2 as (_ & Hc2 & _).
  assert (Hagree : forall x e1 e2,
             memo st1 !! x = Some e1 -> memo st2 !! x = Some e2 -> e1 = e2)
    by (apply (memo_coherent_unique h st1 st2); assumption).
  split; [exact Hagree|].
  intros Hsame.
  assert (Hkeys : forall l st rs other sto rso fuel fuelo,
    all_paths fuel h l etat_initial = Ret (rs, st) ->
    all_paths fuelo h other etat_initial = Ret (rso, sto) ->
    memo_coherent h sto -> memo_fonde h sto ->
    Forall2 (fun t r => memo sto !! t = Some r) other rso ->
    (forall t, t ∈ l -> t ∈ other) ->
    forall x, is_Some (memo st !! x) -> is_Some (memo sto !! x)).
  { intros l st rs other sto rso fuel fuelo Hr Hro Hco Hfo Hlo Hsub x Hx.
    destruct (all_paths_atteint h fuel _ _ _ _ (invariant_initial h) Hr x Hx)
      as [[e He]|(t & Ht & Hreach)].
    { simpl in He. by rewrite lookup_empty in He. }
    destruct (Forall2_element_gauche _ _ _ _ Hlo (Hsub t Ht)) as (r & _ & Hr').
    eapply memo_coherent_clos; [exact Hco|exact Hfo| |exact Hreach].
    by rewrite Hr'. }
  apply map_eq. intros x.
  destruct (memo st1 !! x) as [e1|] eqn:E1; destruct (memo st2 !! x) as [e2|] eqn:E2.
  - f_equal. by eapply Hagree.
  - destruct (Hkeys _ _ _ _ _ _ _ _ Hrun1 Hrun2 Hc2 Hf2 Hl2
                (fun t => proj1 (Hsame t)) x) as [e He]; [by rewrite E1|].
    congruence.
  - destruct (Hkeys _ _ _ _ _ _ _ _ Hrun2 Hrun1 Hc1 Hf1 Hl1
                (fun t => proj2 (Hsame t)) x) as [e He]; [by rewrite E2|].
    congruence.
  - done.
Qed.

Lemma entrees_independantes_de_la_liste_temoin :
  exists rs1 st1 rs2 st2,
    all_paths 5 (Exemples.losange 7 3 7) [2; 4]%nat etat_initial = Ret (rs1, st1) /\
    all_paths 6 (Exemples.losange 7 3 7) [4; 2; 4]%nat etat_initial = Ret (rs2, st2) /\
    (forall x e1 e2, memo st1 !! x = Some e1 -> memo st2 !! x = Some e2 -> e1 = e2) /\
    ((forall t, t ∈ [2; 4]%nat <-> t ∈ [4; 2; 4]%nat) -> memo st1 = memo st2).
Proof.
  apply (entrees_independantes_de_la_liste (Exemples.losange 7 3 7)
           (Exemples.projet_de [2; 4]%nat) (Exemples.projet_de [4; 2; 4]%nat) 5 6).
  - apply bien_pose_losange. intros t Ht.
    repeat (apply elem_of_cons in Ht as [->|Ht]); try lia.
    by apply elem_of_nil in Ht.
  - apply bien_pose_losange. intros t Ht.
    repeat (apply elem_of_cons in Ht as [->|Ht]); try lia.
    by apply elem_of_nil in Ht.
  - vm_compute. lia.
  - vm_compute. lia.
Defined.

(** X6.  The critical path stored is the path of the first task of the
    project's list whose length is greatest: no task of the list has a greater
    length, and every task listed before it has a strictly smaller one. *)
Theorem chemin_critique_premier_maximum h p fuel :
  bien_pose h p -> Projet.taches p <> [] -> (size (dom h) < fuel)%nat ->
  exists rs st p' i t e,
    all_paths fuel h (Projet.taches p) etat_initial = Ret (rs, st) /\
    Projet.calculer_chemin_critique fuel h p = Ret p' /\
    Projet.taches p !! i = Some t /\ memo st !! t = Some e /\
    Projet.chemin_critique p' = e.2 /\
    forall j t' e', Projet.taches p !! j = Some t' -> memo st !! t' = Some e' ->
      e'.1 <= e.1 /\ ((j < i)%nat -> e'.1 < e.1).
Proof.
  intros Hbp Hne Hfuel.
  destruct (calculer_chemin_critique_memo h p fuel Hbp Hne Hfuel)
    as (rs & st & m & Hrun & _ & _ & Hl & Hmax & Hcalc).
  destruct (py_max_premier fst rs m Hmax) as (i & Hi & Hothers).
  destruct (Forall2_lookup_r _ _ _ _ _ Hl Hi) as (t & Ht & Htm).
  exists rs, st, (Projet.set_chemin_critique m.2 p), i, t, m.
  split; [exact Hrun|]. split; [exact Hcalc|]. split; [exact Ht|].
  split; [exact Htm|]. split; [reflexivity|].
  intros j t' e' Hj He'.
  destruct (Forall2_lookup_l _ _ _ _ _ Hl Hj) as (r & Hr & Htr).
  rewrite He' in Htr. injection Htr as <-. by apply (Hothers j).
Qed.

Lemma chemin_critique_premier_maximum_temoin :
  exists rs st p' i t e,
    all_paths 5 (Exemples.losange 7 5 5) [2; 3]%nat etat_initial = Ret (rs, st) /\
    Projet.calculer_chemin_critique 5 (Exemples.losange 7 5 5)
      (Exemples.projet_de [2; 3]%nat) = Ret p' /\
    [2; 3]%nat !! i = Some t /\ memo st !! t = Some e /\
    Projet.chemin_critique p' = e.2 /\
    forall j t' e', [2; 3]%nat !! j = Some t' -> memo st !! t' = Some e' ->
      e'.1 <= e.1 /\ ((j < i)%nat -> e'.1 < e.1).
Proof.
  apply (chemin_critique_premier_maximum (Exemples.losange 7 5 5)
           (Exemples.projet_de [2; 3]%nat) 5).
  - apply bien_pose_losange. intros t Ht.
    repeat (apply elem_of_cons in Ht as [->|Ht]); try lia.
    by apply elem_of_nil in Ht.
  - discriminate.
  - vm_compute. lia.
Defined.

(** ** Changing the tasks between two computations *)

Lemma boucle_dependances_ext appel appel' :
  (forall d st, appel d st = appel' d st) ->
  forall deps ml mp st,
    boucle_dependances appel deps ml mp st = boucle_dependances appel' deps ml mp st.
Proof.
  intros Ha. induction deps as [|d ds IH]; intros ml mp st; simpl; [done|].
  rewrite Ha. destruct (appel' d st) as [[[dl dp] st1]| | |]; simpl; try done.
  destruct (dl >? ml); apply IH.
Qed.

Lemma find_longest_path_memes_graphes h h' :
  memes_graphes h h' ->
  forall fuel t st, find_longest_path fuel h t st = find_longest_path fuel h' t st.
Proof.
  intros Hg. induction fuel as [|fuel IH]; intros t st; [done|].
  cbn [find_longest_path]. destruct (memo st !! t); [done|].
  unfold deref. specialize (Hg t).
  destruct (h !! t) as [T|], (h' !! t) as [T'|]; try done.
  destruct Hg as [Hd Hj]. cbn [mbind res_bind]. rewrite Hd, Hj.
  destruct (Tache.dependances T') as [|d ds]; [done|].
  by rewrite (boucle_dependances_ext _ _ (IH)).
Qed.

Lemma all_paths_memes_graphes h h' :
  memes_graphes h h' ->
  forall fuel l st, all_paths fuel h l st = all_paths fuel h' l st.
Proof.
  intros Hg fuel. induction l as [|t l IH]; intros st; simpl; [done|].
  rewrite (find_longest_path_memes_graphes h h' Hg).
  destruct (find_longest_path fuel h' t st) as [[e st1]| | |]; simpl; try done.
  by rewrite IH.
Qed.

(** X7.  Updating the status of a task changes nothing to what
    [calculer_chemin_critique] does afterwards, for any project and any depth
    bound: the computation reads only the predecessors and the dates. *)
Theorem statut_sans_effet_sur_le_chemin self statut h h' fuel p :
  Tache.mettre_a_jour_statut self statut h = Ret h' ->
  Projet.calculer_chemin_critique fuel h' p = Projet.calculer_chemin_critique fuel h p.
Proof.
  unfold Tache.mettre_a_jour_statut, deref.
  destruct (h !! self) as [T|] eqn:HT; simpl; [|done]. intros [= <-].
  match goal with
  | |- Projet.calculer_chemin_critique fuel ?x p = _ => set (h' := x)
  end.
  assert (memes_graphes h h') as Hg.
  { intros a. subst h'. destruct (decide (self = a)) as [<-|Hne].
    - rewrite lookup_insert_eq, HT. done.
    - rewrite lookup_insert_ne by done. by destruct (h !! a). }
  unfold Projet.calculer_chemin_critique.
  by rewrite (all_paths_memes_graphes h h' Hg).
Qed.

Lemma statut_sans_effet_sur_le_chemin_temoin :
  exists h',
    Tache.mettre_a_jour_statut 2 "En cours" TestProjet.tas_test = Ret h' /\
    Projet.calculer_chemin_critique 3 h' TestProjet.projet_taches
    = Projet.calculer_chemin_critique 3 TestProjet.tas_test TestProjet.projet_taches.
Proof.
  eexists. split; [reflexivity|].
  apply (statut_sans_effet_sur_le_chemin 2 "En cours" TestProjet.tas_test).
  reflexivity.
Defined.

(** What [ajouter_dependance] leaves at each address. *)
Lemma ajouter_dependance_lookup t d h h' :
  Tache.ajouter_dependance t d h = Ret h' ->
  exists T, h !! t = Some T /\
    forall x, h' !! x =
      (fun U => if decide (Tache.liste U = Tache.liste T)
                then Tache.append d U else U) <$> h !! x.
Proof.
  unfold Tache.ajouter_dependance, deref.
  destruct (h !! t) as [T|] eqn:HT; simpl; [|done]. intros [= <-].
  exists T. split; [done|]. intros x. apply lookup_fmap.
Qed.

(** The edges after [ajouter_dependance]: those there were, and one to the
    new predecessor from every task that holds the list. *)
Lemma ajouter_dependance_aretes t d h h' :
  Tache.ajouter_dependance t d h = Ret h' ->
  forall x y, arete h' x y <-> arete h x y \/ (partage h x t /\ y = d).
Proof.
  intros (T & HT & Hlook)%ajouter_dependance_lookup x y.
  unfold arete. rewrite Hlook. split.
  - intros (U' & HU' & Hy). destruct (h !! x) as [U|] eqn:HU; [|done].
    simpl in HU'. injection HU' as <-.
    destruct (decide (Tache.liste U = Tache.liste T)) as [Heq|Hne].
    + simpl in Hy. apply elem_of_app in Hy as [Hy| ->%list_elem_of_singleton].
      * left. by exists U.
      * right. split; [|done]. by exists U, T.
    + left. by exists U.
  - intros [(U & HU & Hy)|[(U & T' & HU & HT' & Heq) ->]]; rewrite HU; simpl.
    + eexists. split; [reflexivity|].
      destruct (decide (Tache.liste U = Tache.liste T)); [|done].
      simpl. apply elem_of_app. by left.
    + rewrite HT in HT'. injection HT' as <-.
      eexists. split; [reflexivity|]. rewrite decide_True by done.
      simpl. apply elem_of_app. right. by constructor.
Qed.

Lemma ajouter_dependance_presence t d h h' :
  Tache.ajouter_dependance t d h = Ret h' ->
  is_Some (h !! t) /\ dom h' = dom h /\
  forall x, is_Some (h' !! x) <-> is_Some (h !! x).
Proof.
  intros (T & HT & Hlook)%ajouter_dependance_lookup.
  assert (forall x, is_Some (h' !! x) <-> is_Some (h !! x)) as Hsome.
  { intros x. rewrite Hlook. apply fmap_is_Some. }
  split; [by eexists|]. split; [|exact Hsome].
  apply set_eq. intros x. by rewrite !elem_of_dom.
Qed.

Lemma ajouter_dependance_clos t d h h' :
  Tache.ajouter_dependance t d h = Ret h' ->
  tas_clos h -> is_Some (h !! d) -> tas_clos h'.
Proof.
  intros Hadd Hclos Hd x y Hxy.
  destruct (ajouter_dependance_presence _ _ _ _ Hadd) as (_ & _ & Hsome).
  apply Hsome.
  apply (ajouter_dependance_aretes _ _ _ _ Hadd) in Hxy as [Hxy|[_ ->]]; [|done].
  by apply (Hclos x y).
Qed.

(** The list keeps its identity, and the tasks that hold it still agree on
    its contents. *)
Lemma ajouter_dependance_coherent t d h h' :
  Tache.ajouter_dependance t d h = Ret h' ->
  partage_coherent h -> partage_coherent h'.
Proof.
  intros (T & HT & Hlook)%ajouter_dependance_lookup Hcoh a b A' B' HA' HB' Heq.
  rewrite Hlook in HA', HB'.
  destruct (h !! a) as [A|] eqn:HA; [|done].
  destruct (h !! b) as [B|] eqn:HB; [|done].
  simpl in HA', HB'. injection HA' as <-. injection HB' as <-.
  assert (Tache.liste A = Tache.liste B) as HAB.
  { revert Heq.
    destruct (decide (Tache.liste A = Tache.liste T));
      destruct (decide (Tache.liste B = Tache.liste T)); simpl; congruence. }
  pose proof (Hcoh a b A B HA HB HAB) as Hdeps.
  destruct (decide (Tache.liste A = Tache.liste T)) as [HAT|HAT];
    destruct (decide (Tache.liste B = Tache.liste T)) as [HBT|HBT];
    simpl; congruence.
Qed.

Lemma mettre_a_jour_statut_coherent self statut h h' :
  Tache.mettre_a_jour_statut self statut h = Ret h' ->
  partage_coherent h -> partage_coherent h'.
Proof.
  unfold Tache.mettre_a_jour_statut, deref.
  destruct (h !! self) as [T|] eqn:HT; simpl; [|done]. intros [= <-] Hcoh.
  intros a b A B HA HB Heq.
  destruct (decide (a = self)) as [->|Ha]; destruct (decide (b = self)) as [->|Hb].
  - rewrite lookup_insert_eq in HA, HB. by simplify_eq.
  - rewrite lookup_insert_eq in HA. rewrite lookup_insert_ne in HB by done.
    injection HA as <-. exact (Hcoh self b T B HT HB Heq).
  - rewrite lookup_insert_eq in HB. rewrite lookup_insert_ne in HA by done.
    injection HB as <-. exact (Hcoh a self A T HA HT Heq).
  - rewrite lookup_insert_ne in HA, HB by done. exact (Hcoh a b A B HA HB Heq).
Qed.

Lemma rtc_arete_stocke h d t :
  rtc (arete h) d t -> is_Some (h !! t) -> is_Some (h !! d).
Proof.
  intros Hr Ht. destruct (rtc_inv _ _ Hr) as [->|(y & (T & HT & _) & _)]; [done|].
  by eexists.
Qed.

(** On a well-posed project the call has one outcome, the same for every
    sufficient depth bound. *)
Lemma calculer_chemin_critique_issue h p :
  bien_pose h p ->
  exists issue,
    terminates issue /\
    forall fuel, (size (dom h) < fuel)%nat ->
      Projet.calculer_chemin_critique fuel h p = issue.
Proof.
  intros Hbp.
  destruct (execution_bien_posee h p (S (size (dom h))) Hbp) as (rs & st & Hrun & _);
    [lia|].
  exists (best ← py_max fst rs; Ret (Projet.set_chemin_critique best.2 p)).
  split.
  - destruct rs as [|r rs]; simpl; [right|left]; eauto.
  - intros fuel Hfuel. unfold Projet.calculer_chemin_critique.
    by rewrite (all_paths_mono h _ fuel Hfuel _ _ _ Hrun).
Qed.

(** Once a task that holds the list of [t] can be reached from the new
    predecessor, every project with a task that leads to it diverges. *)
Lemma ajouter_dependance_diverge t d s h h' p :
  tas_clos h ->
  (forall x, x ∈ Projet.taches p -> is_Some (h !! x)) ->
  Tache.ajouter_dependance t d h = Ret h' ->
  partage h s t ->
  rtc (arete h) d s ->
  (exists t0, t0 ∈ Projet.taches p /\ rtc (arete h) t0 s) ->
  forall fuel, Projet.calculer_chemin_critique fuel h' p = OutOfFuel.
Proof.
  intros Hclos Hin Hadd Hst Hds (t0 & Ht0 & Ht0s) fuel.
  destruct (ajouter_dependance_presence _ _ _ _ Hadd) as (Ht & _ & Hsome).
  assert (forall x y, rtc (arete h) x y -> rtc (arete h') x y) as Hmono.
  { intros x y. apply rtc_subrel. intros a b Hab.
    apply (ajouter_dependance_aretes _ _ _ _ Hadd). by left. }
  unfold Projet.calculer_chemin_critique.
  rewrite (all_paths_diverge h' fuel); [done| | | |apply invariant_initial].
  - eapply ajouter_dependance_clos; [exact Hadd|exact Hclos|].
    eapply rtc_arete_stocke; [exact Hds|].
    destruct Hst as (S & _ & HS & _). by eexists.
  - intros x Hx. apply Hsome. by apply Hin.
  - exists t0. split; [done|]. exists s. split; [by apply Hmono|].
    eapply tc_rtc_r; [|apply Hmono; exact Hds].
    apply tc_once. apply (ajouter_dependance_aretes _ _ _ _ Hadd). by right.
Qed.

(** X8.  Giving a task [t] a predecessor [d] from which [t] can already be
    reached ([d] may be [t] itself) closes a cycle: from then on
    [calculer_chemin_critique] exceeds every depth bound on any project with a
    task that leads to [t]. *)
Theorem dependance_fermant_un_cycle t d h h' p :
  tas_clos h ->
  (forall x, x ∈ Projet.taches p -> is_Some (h !! x)) ->
  Tache.ajouter_dependance t d h = Ret h' ->
  rtc (arete h) d t ->
  (exists t0, t0 ∈ Projet.taches p /\ rtc (arete h) t0 t) ->
  forall fuel, Projet.calculer_chemin_critique fuel h' p = OutOfFuel.
Proof.
  intros Hclos Hin Hadd Hdt Hp fuel.
  destruct (ajouter_dependance_presence _ _ _ _ Hadd) as ([T HT] & _).
  eapply (ajouter_dependance_diverge t d t); try eassumption.
  by exists T, T.
Qed.

Lemma dependance_fermant_un_cycle_temoin :
  exists h',
    Tache.ajouter_dependance 1 2 TestProjet.tas_test = Ret h' /\
    forall fuel,
      Projet.calculer_chemin_critique fuel h' (Exemples.projet_de [2%nat]) = OutOfFuel.
Proof.
  eexists. split; [reflexivity|].
  apply (dependance_fermant_un_cycle 1 2 TestProjet.tas_test).
  - exact tas_test_clos.
  - intros x Hx. apply elem_of_cons in Hx as [->|Hx]; [by eexists|].
    by apply elem_of_nil in Hx.
  - reflexivity.
  - apply rtc_once. eexists. split; [reflexivity|]. by constructor.
  - exists 2%nat. split; [by constructor|].
    apply rtc_once. eexists. split; [reflexivity|]. by constructor.
Defined.

(** Two tasks built from one list: giving the first the second as
    predecessor gives it to the second too, which becomes its own
    predecessor. *)
Lemma partage_ferme_un_cycle :
  exists h',
    Tache.ajouter_dependance 2 3 Exemples.tas_partage = Ret h' /\
    arete h' 2 3 /\ arete h' 3 3 /\
    forall fuel,
      Projet.calculer_chemin_critique fuel h' (Exemples.projet_de [3%nat]) = OutOfFuel.
Proof.
  assert (partage Exemples.tas_partage 3 2) as Hpartage.
  { eexists _, _. split; [reflexivity|]. split; reflexivity. }
  eexists. split; [reflexivity|]. split; [|split].
  - eexists. split; [reflexivity|]. simpl. repeat constructor.
  - eexists. split; [reflexivity|]. simpl. repeat constructor.
  - apply (ajouter_dependance_diverge 2 3 3 Exemples.tas_partage).
    + intros t d H. unfold Exemples.tas_partage in H. aretes H; by eexists.
    + intros x Hx. apply elem_of_cons in Hx as [->|Hx]; [by eexists|].
      by apply elem_of_nil in Hx.
    + reflexivity.
    + exact Hpartage.
    + apply rtc_refl.
    + exists 3%nat. split; [by constructor|apply rtc_refl].
Qed.

Lemma ajouter_dependance_acyclique t d h h' :
  Tache.ajouter_dependance t d h = Ret h' ->
  acyclique h ->
  (forall s, partage h s t -> ~ rtc (arete h) d s) ->
  acyclique h'.
Proof.
  intros Hadd Hacyc Hnds.
  pose proof (ajouter_dependance_aretes _ _ _ _ Hadd) as Hedges.
  assert (forall x y, rtc (arete h') x y ->
            rtc (arete h) x y
            \/ exists s, partage h s t /\ rtc (arete h) x s /\ rtc (arete h) d y)
    as Hpaths.
  { intros x y Hxy. induction Hxy as [x|x z y Hxz _ IH]; [left; apply rtc_refl|].
    apply Hedges in Hxz as [Hxz|[Hxt ->]].
    - destruct IH as [IH|(s & Hs & IH1 & IH2)].
      + left. by eapply rtc_l.
      + right. exists s. split; [done|]. split; [by eapply rtc_l|done].
    - destruct IH as [IH|(s & Hs & _ & IH2)]; right; exists x;
        (split; [done|]); (split; [apply rtc_refl|done]). }
  intros x Hcyc.
  assert (exists z, arete h' x z /\ rtc (arete h') z x) as (z & Hxz & Hzx).
  { inversion Hcyc as [a b Hab|a b c Hab Hbc]; subst.
    - exists x. split; [done|apply rtc_refl].
    - exists b. split; [done|by apply tc_rtc]. }
  apply Hedges in Hxz as [Hxz|[Hxt ->]].
  - destruct (Hpaths _ _ Hzx) as [Hzx'|(s & Hs & Hzs & Hdx)].
    + apply (Hacyc x). eapply tc_rtc_r; [by apply tc_once|done].
    + apply (Hnds s Hs). eapply rtc_trans; [exact Hdx|]. by eapply rtc_l.
  - destruct (Hpaths _ _ Hzx) as [Hdx|(s & Hs & Hds & _)].
    + by apply (Hnds x).
    + by apply (Hnds s).
Qed.

(** X9.  [ajouter_dependance] appends to the list object that [t] holds,
    which other tasks may hold too.  If [d] is stored and none of the tasks
    that hold this list ([t] among them) can be reached from [d], the store
    stays closed and acyclic, [t] now lists [d], the tasks that share a list
    still agree on it, and [calculer_chemin_critique] still terminates on it,
    with one outcome for every sufficient depth bound. *)
Theorem dependance_sans_cycle t d h h' p :
  bien_pose h p ->
  Tache.ajouter_dependance t d h = Ret h' ->
  is_Some (h !! d) ->
  (forall s, partage h s t -> ~ rtc (arete h) d s) ->
  tas_clos h' /\ acyclique h' /\
  arete h' t d /\
  (partage_coherent h -> partage_coherent h') /\
  exists issue,
    terminates issue /\
    forall fuel, (size (dom h') < fuel)%nat ->
      Projet.calculer_chemin_critique fuel h' p = issue.
Proof.
  intros (Hclos & Hacyc & Hin) Hadd Hd Hnds.
  assert (tas_clos h') as Hclos' by (by eapply ajouter_dependance_clos).
  assert (acyclique h') as Hacyc' by (by eapply ajouter_dependance_acyclique).
  destruct (ajouter_dependance_presence _ _ _ _ Hadd) as ([T HT] & _ & Hsome).
  split; [done|]. split; [done|].
  split.
  { apply (ajouter_dependance_aretes _ _ _ _ Hadd). right. split; [|done].
    by exists T, T. }
  split; [by eapply ajouter_dependance_coherent|].
  apply calculer_chemin_critique_issue. split; [done|]. split; [done|].
  intros x Hx. apply Hsome. by apply Hin.
Qed.

Lemma dependance_sans_cycle_temoin :
  exists h',
    Tache.ajouter_dependance 4 1 (Exemples.losange 7 5 5) = Ret h' /\
    tas_clos h' /\ acyclique h' /\ arete h' 4 1 /\
    (partage_coherent (Exemples.losange 7 5 5) -> partage_coherent h') /\
    exists issue,
      terminates issue /\
      forall fuel, (size (dom h') < fuel)%nat ->
        Projet.calculer_chemin_critique fuel h' (Exemples.projet_de [4%nat]) = issue.
Proof.
  eexists. split; [reflexivity|].
  apply (dependance_sans_cycle 4 1 (Exemples.losange 7 5 5)).
  - apply bien_pose_losange. intros x Hx.
    apply elem_of_cons in Hx as [->|Hx]; [lia|]. by apply elem_of_nil in Hx.
  - reflexivity.
  - by eexists.
  - intros s (S & T & HS & HT & Hl) Hr.
    apply rtc_inv in Hr as [<-|(y & Hy & _)].
    + assert (Exemples.losange 7 5 5 !! 1%nat
              = Some (Exemples.tache 11 "A" 1 (1 + 7) [])) as H1 by reflexivity.
      assert (Exemples.losange 7 5 5 !! 4%nat
              = Some (Exemples.tache 14 "D" 20 25 [2%nat; 3%nat])) as H4 by reflexivity.
      rewrite H1 in HS. rewrite H4 in HT.
      injection HS as <-. injection HT as <-. discriminate Hl.
    + apply arete_losange in Hy. lia.
Defined.

(** ** Histories of the aggregate *)

Lemma nombre_changements_snoc ops op :
  nombre_changements (ops ++ [op]) =
  (nombre_changements ops +
   match op with EnregistrerChangement _ _ => 1 | _ => 0 end)%nat.
Proof.
  induction ops as [|o ops IH]; simpl.
  - destruct op; reflexivity.
  - destruct o; simpl; rewrite IH; lia.
Qed.

Lemma derniere_strategie_snoc ops op :
  derniere_strategie (ops ++ [op]) =
  match op with
  | SetNotificationStrategy s => Some s
  | _ => derniere_strategie ops
  end.
Proof. unfold derniere_strategie. rewrite fold_left_app. by destruct op. Qed.

Lemma notifier_sorties ctx message l :
  Forall (fun v => Envoi.sortie v =
                   envoyer_message (NotificationContext.strategy ctx)
                     (Envoi.message v) (Envoi.destinataire v))
         (NotificationContext.notifier ctx message l).
Proof. induction l as [|m l IH]; simpl; constructor; auto. Qed.

Section Histoires.
Context `{Runtime}.

(** What a call that returns has assigned, and what it has delivered. *)
Lemma executer_effet fuel h op p e :
  executer fuel h op p = Ret e ->
  match op with
  | SetNotificationStrategy s =>
      apres e = Projet.set_notification_strategy s p /\ envois e = []
  | AjouterTache t => apres e = Projet.set_taches (Projet.taches p ++ [t]) p
  | AjouterMembreEquipe m =>
      apres e = Projet.set_equipe (Equipe.ajouter_membre m (Projet.equipe p)) p
  | DefinirBudget b => apres e = Projet.set_budget b p
  | AjouterRisque r => apres e = Projet.set_risques (Projet.risques p ++ [r]) p
  | AjouterJalon j => apres e = Projet.set_jalons (Projet.jalons p ++ [j]) p
  | EnregistrerChangement d maintenant =>
      apres e =
        Projet.set_version (Projet.version p + 1)
          (Projet.set_changements
             (Projet.changements p
              ++ [Changement.init d (Projet.version p) maintenant]) p)
  | CalculerCheminCritique =>
      apres e = Projet.set_chemin_critique (Projet.chemin_critique (apres e)) p
      /\ envois e = []
  | Notifier _ => apres e = p
  | GenererRapport => apres e = p /\ envois e = []
  end
  /\ (envois e = [] \/ exists message, envois e = Projet.notifier message (apres e)).
Proof.
  destruct op; simpl.
  - intros [= <-]. auto.
  - unfold Projet.ajouter_tache. destruct (deref h tache); simpl; try done.
    intros [= <-]. simpl. eauto.
  - intros [= <-]. simpl. eauto.
  - intros [= <-]. simpl. eauto.
  - intros [= <-]. simpl. eauto.
  - intros [= <-]. simpl. eauto.
  - intros [= <-]. simpl. eauto.
  - unfold Projet.calculer_chemin_critique.
    destruct (all_paths _ _ _ _) as [r| | |]; simpl; try done.
    destruct (py_max fst r.1); simpl; try done. intros [= <-]. auto.
  - intros [= <-]. simpl. eauto.
  - destruct (Projet.generer_rapport h p); simpl; try done. intros [= <-]. auto.
Qed.

(** X10.  Whatever calls a project has received since its construction,
    its version is one more than the number of [enregistrer_changement]
    among them, and its change records are stamped 1, 2, 3, ... in the order
    they were recorded. *)
Theorem versions_des_changements ops p :
  historique ops p ->
  Projet.version p = 1 + Z.of_nat (nombre_changements ops) /\
  map Changement.version (Projet.changements p)
  = map Z.of_nat (seq 1 (nombre_changements ops)).
Proof.
  induction 1 as [| ops p fuel h op e _ [IHv IHc] Hex | ops p fuel h op exn _ IH Hex].
  - done.
  - rewrite nombre_changements_snoc.
    destruct (executer_effet _ _ _ _ _ Hex) as [Heff _].
    destruct op; try (apply proj1 in Heff); rewrite Heff; simpl;
      rewrite ?Nat.add_0_r; try done.
    split; [lia|].
    rewrite map_app, IHc, Nat.add_1_r, seq_S, map_app. simpl.
    do 3 f_equal. lia.
  - rewrite nombre_changements_snoc.
    destruct op; simpl in *; rewrite ?Nat.add_0_r; try done.
Qed.

(** X11.  A sequence of calls never removes or reorders what the project
    holds: its tasks, members, risks, milestones and change records before
    the calls are the beginning of the lists after them; its name,
    description and dates are not touched, and its version does not
    decrease. *)
Theorem collections_croissantes fuel h ops p p' :
  derouler fuel h ops p = Ret p' ->
  Projet.taches p `prefix_of` Projet.taches p' /\
  Equipe.membres (Projet.equipe p) `prefix_of` Equipe.membres (Projet.equipe p') /\
  Projet.risques p `prefix_of` Projet.risques p' /\
  Projet.jalons p `prefix_of` Projet.jalons p' /\
  Projet.changements p `prefix_of` Projet.changements p' /\
  Projet.nom p' = Projet.nom p /\
  Projet.description p' = Projet.description p /\
  Projet.date_debut p' = Projet.date_debut p /\
  Projet.date_fin p' = Projet.date_fin p /\
  Projet.version p <= Projet.version p'.
Proof.
  revert p. induction ops as [|op ops IH]; intros p; simpl.
  { intros [= <-]. repeat split; try done; lia. }
  destruct (executer fuel h op p) as [e| | |] eqn:Hex; simpl; try done.
  intros Hrest.
  destruct (IH _ Hrest) as (H1 & H2 & H3 & H4 & H5 & H6 & H7 & H8 & H9 & H10).
  destruct (executer_effet _ _ _ _ _ Hex) as [Heff _].
  assert (forall {A} (l : list A) x, l `prefix_of` l ++ [x]) as Hsnoc
    by (intros A l x; by exists [x]).
  destruct op; try (apply proj1 in Heff); rewrite Heff in *; simpl in *;
    repeat split; try done; try lia;
    try (etrans; [apply Hsnoc|eassumption]).
Qed.

(** X12.  The notification context of a project is the strategy handed to
    the last [set_notification_strategy] it has received, if any: once bound a
    project is never unbound, and every delivery of the next call is made by
    that strategy, applied to the message and the recipient of the delivery. *)
Theorem strategie_liee_est_la_derniere ops p :
  historique ops p ->
  Projet.notification_context p = NotificationContext.init <$> derniere_strategie ops /\
  forall fuel h op e,
    executer fuel h op p = Ret e ->
    Forall (fun v => exists s,
                derniere_strategie ops = Some s /\
                Envoi.sortie v = envoyer_message s (Envoi.message v) (Envoi.destinataire v))
           (envois e).
Proof.
  intros Hhist.
  assert (Projet.notification_context p
          = NotificationContext.init <$> derniere_strategie ops) as Hctx.
  { induction Hhist as [| ops p fuel h op e _ IH Hex | ops p fuel h op exn _ IH Hex].
    - done.
    - rewrite derniere_strategie_snoc.
      destruct (executer_effet _ _ _ _ _ Hex) as [Heff _].
      destruct op; try (apply proj1 in Heff); rewrite Heff; simpl; done.
    - rewrite derniere_strategie_snoc. destruct op; simpl in *; done. }
  split; [exact Hctx|].
  intros fuel h op e Hex.
  destruct (executer_effet _ _ _ _ _ Hex) as [Heff Henv].
  assert (envois e = []
          \/ (exists message, envois e = Projet.notifier message (apres e))
             /\ Projet.notification_context (apres e) = Projet.notification_context p)
    as [->|[[message ->] Hsame]]; [|constructor|].
  { destruct op; try (left; apply Heff);
      (destruct Henv as [Hnil|Hmsg]; [by left|right; split; [done|by rewrite Heff]]). }
  unfold Projet.notifier. rewrite Hsame, Hctx.
  destruct (derniere_strategie ops) as [s|]; simpl; [|constructor].
  eapply Forall_impl; [apply notifier_sorties|]. intros v Hv. by exists s.
Qed.
End Histoires.

(** A sequence of calls that all return extends a history. *)
Lemma historique_derouler `{Runtime} fuel h ops :
  forall ops0 p0 p,
    historique ops0 p0 -> derouler fuel h ops p0 = Ret p ->
    historique (ops0 ++ ops) p.
Proof.
  induction ops as [|op ops IH]; intros ops0 p0 p Hh; simpl.
  - intros [= <-]. by rewrite app_nil_r.
  - destruct (executer fuel h op p0) as [e| | |] eqn:Hex; simpl; try done.
    intros Hrest. rewrite (cons_middle op ops0 ops), app_assoc.
    eapply IH; [|exact Hrest]. by eapply historique_ret.
Qed.

Lemma historique_exemple :
  @historique TestProjet.runtime histoire_exemple projet_histoire.
Proof.
  apply (@historique_derouler TestProjet.runtime 0 ∅ histoire_exemple [] projet_neuf).
  - apply historique_init.
  - vm_compute. reflexivity.
Qed.

Lemma versions_des_changements_temoin :
  Projet.version projet_histoire = 1 + Z.of_nat (nombre_changements histoire_exemple) /\
  map Changement.version (Projet.changements projet_histoire)
  = map Z.of_nat (seq 1 (nombre_changements histoire_exemple)).
Proof.
  apply (@versions_des_changements TestProjet.runtime histoire_exemple projet_histoire).
  exact historique_exemple.
Defined.

Lemma collections_croissantes_temoin :
  exists p',
    @derouler TestProjet.runtime 1 (<[1%nat := TestProjet.tache1]> ∅)
      TestProjet.scenario TestProjet.projet = Ret p' /\
    Projet.taches TestProjet.projet `prefix_of` Projet.taches p' /\
    Equipe.membres (Projet.equipe TestProjet.projet)
      `prefix_of` Equipe.membres (Projet.equipe p') /\
    Projet.risques TestProjet.projet `prefix_of` Projet.risques p' /\
    Projet.jalons TestProjet.projet `prefix_of` Projet.jalons p' /\
    Projet.changements TestProjet.projet `prefix_of` Projet.changements p' /\
    Projet.nom p' = Projet.nom TestProjet.projet /\
    Projet.description p' = Projet.description TestProjet.projet /\
    Projet.date_debut p' = Projet.date_debut TestProjet.projet /\
    Projet.date_fin p' = Projet.date_fin TestProjet.projet /\
    Projet.version TestProjet.projet <= Projet.version p'.
Proof.
  eexists. split; [vm_compute; reflexivity|].
  apply (@collections_croissantes TestProjet.runtime 1
           (<[1%nat := TestProjet.tache1]> ∅) TestProjet.scenario TestProjet.projet).
  vm_compute. reflexivity.
Defined.

Lemma strategie_liee_est_la_derniere_temoin :
  Projet.notification_context projet_histoire
  = NotificationContext.init <$> derniere_strategie histoire_exemple /\
  forall fuel h op e,
    @executer TestProjet.runtime fuel h op projet_histoire = Ret e ->
    Forall (fun v => exists s,
                derniere_strategie histoire_exemple = Some s /\
                Envoi.sortie v = envoyer_message s (Envoi.message v) (Envoi.destinataire v))
           (envois e).
Proof.
  apply (@strategie_liee_est_la_derniere TestProjet.runtime histoire_exemple
           projet_histoire).
  exact historique_exemple.
Defined.

Section Rapport.
Context `{Runtime}.

(** X13.  On a well-posed project with at least one task,
    [calculer_chemin_critique] returns a project that differs from the one it
    was given by the critical path only, and on which [generer_rapport]
    returns a report: every task of the path it has stored is in the store. *)
Theorem rapport_apres_calcul h p fuel :
  bien_pose h p -> Projet.taches p <> [] -> (size (dom h) < fuel)%nat ->
  exists p' texte,
    Projet.calculer_chemin_critique fuel h p = Ret p' /\
    p' = Projet.set_chemin_critique (Projet.chemin_critique p') p /\
    Projet.generer_rapport h p' = Ret texte.
Proof.
  intros Hbp Hne Hfuel.
  destruct (calculer_chemin_critique_memo h p fuel Hbp Hne Hfuel)
    as (rs & st & m & Hrun & (_ & Hcoh & _) & Hf & Hl & Hmax & Hcalc).
  destruct (py_max_premier fst rs m Hmax) as (i & Hi & _).
  destruct (Forall2_lookup_r _ _ _ _ _ Hl Hi) as (t & Ht & Htm).
  destruct (entree_bien_formee h st Hcoh Hf t m Htm) as (_ & _ & Hin & _).
  destruct (generer_rapport_ret h (Projet.set_chemin_critique m.2 p)) as [texte Htexte].
  { intros y [Hy|Hy]%elem_of_app; simpl in Hy.
    - by apply Hbp.
    - by apply Hf, Hin. }
  exists (Projet.set_chemin_critique m.2 p), texte.
  split; [exact Hcalc|]. split; [reflexivity|exact Htexte].
Qed.
End Rapport.

Lemma rapport_apres_calcul_temoin :
  exists p' texte,
    Projet.calculer_chemin_critique 3 TestProjet.tas_test
      (Exemples.projet_de [1; 2]%nat) = Ret p' /\
    p' = Projet.set_chemin_critique (Projet.chemin_critique p')
           (Exemples.projet_de [1; 2]%nat) /\
    @Projet.generer_rapport TestProjet.runtime TestProjet.tas_test p' = Ret texte.
Proof.
  apply (@rapport_apres_calcul TestProjet.runtime TestProjet.tas_test
           (Exemples.projet_de [1; 2]%nat) 3).
  - apply bien_pose_tas_test. intros t Ht.
    repeat (apply elem_of_cons in Ht as [->|Ht]); auto.
    by apply elem_of_nil in Ht.
  - discriminate.
  - vm_compute. lia.
Defined.

(** A task without predecessors is on no path but its own. *)
Lemma source_hors_des_chemins h st :
  memo_coherent h st -> memo_fonde h st ->
  forall x e, memo st !! x = Some e ->
    forall y Ty, y ∈ e.2 -> h !! y = Some Ty -> Tache.dependances Ty = [] ->
      x = y /\ e = (0, [y]).
Proof.
  intros Hcoh Hf x e He.
  assert (Acc (precede h) x) as Hacc by (apply Hf; rewrite He; by eexists).
  revert e He. induction Hacc as [x _ IH]. intros e He y Ty Hy HTy Hsrc.
  destruct (Hf x) as [[T HT] _]; [rewrite He; by eexists|].
  destruct (memo_coherent_recurrence h st x e T Hcoh He HT)
    as [[Hd ->]|(Hd & Hall & [[-> _]|(i & d & ed & Hi & Hed & Hpos & -> & _)])];
    simpl in Hy.
  - apply list_elem_of_singleton in Hy as ->. done.
  - apply list_elem_of_singleton in Hy as ->. congruence.
  - apply elem_of_app in Hy as [Hy|Hy].
    + assert (arete h x d) as Hxd.
      { exists T. split; [done|]. by eapply list_elem_of_lookup_2. }
      destruct (IH d Hxd ed Hed y Ty Hy HTy Hsrc) as [_ ->]. simpl in Hpos. lia.
    + apply list_elem_of_singleton in Hy as ->. congruence.
Qed.

(** X14.  A task without predecessors never contributes to the path of
    another task: the critical path stored holds such a task only when it is
    that task alone. *)
Theorem chemin_critique_sans_source h p fuel :
  bien_pose h p -> Projet.taches p <> [] -> (size (dom h) < fuel)%nat ->
  exists p',
    Projet.calculer_chemin_critique fuel h p = Ret p' /\
    forall y Ty, y ∈ Projet.chemin_critique p' -> h !! y = Some Ty ->
      Tache.dependances Ty = [] -> Projet.chemin_critique p' = [y].
Proof.
  intros Hbp Hne Hfuel.
  destruct (calculer_chemin_critique_memo h p fuel Hbp Hne Hfuel)
    as (rs & st & m & Hrun & (_ & Hcoh & _) & Hf & Hl & Hmax & Hcalc).
  destruct (py_max_premier fst rs m Hmax) as (i & Hi & _).
  destruct (Forall2_lookup_r _ _ _ _ _ Hl Hi) as (t & Ht & Htm).
  exists (Projet.set_chemin_critique m.2 p). split; [exact Hcalc|].
  simpl. intros y Ty Hy HTy Hsrc.
  by destruct (source_hors_des_chemins h st Hcoh Hf t m Htm y Ty Hy HTy Hsrc) as [_ ->].
Qed.

Lemma chemin_critique_sans_source_temoin :
  exists p',
    Projet.calculer_chemin_critique 5 (Exemples.losange 7 5 5)
      (Exemples.projet_de [1; 4]%nat) = Ret p' /\
    forall y Ty, y ∈ Projet.chemin_critique p' ->
      Exemples.losange 7 5 5 !! y = Some Ty ->
      Tache.dependances Ty = [] -> Projet.chemin_critique p' = [y].
Proof.
  apply (chemin_critique_sans_source (Exemples.losange 7 5 5)
           (Exemples.projet_de [1; 4]%nat) 5).
  - apply bien_pose_losange. intros t Ht.
    repeat (apply elem_of_cons in Ht as [->|Ht]); try lia.
    by apply elem_of_nil in Ht.
  - discriminate.
  - vm_compute. lia.
Defined.

(** ** The report, section by section *)

Lemma append_assoc (a b c : string) : (a +:+ b) +:+ c = a +:+ (b +:+ c).
Proof.
  induction a as [|x a IH]; [reflexivity|].
  change (String x ((a +:+ b) +:+ c) = String x (a +:+ (b +:+ c))).
  by rewrite IH.
Qed.

Lemma append_nil_r (a : string) : a +:+ "" = a.
Proof.
  induction a as [|x a IH]; [reflexivity|].
  change (String x (a +:+ "") = String x a). by rewrite IH.
Qed.

Lemma rapport_equipe_lignes l rapport :
  Projet.rapport_equipe l rapport = rapport +:+ lignes (map ligne_membre l).
Proof.
  revert rapport. induction l as [|m l IH]; intros rapport.
  - cbn. by rewrite append_nil_r.
  - cbn [Projet.rapport_equipe map]. rewrite IH, append_assoc. reflexivity.
Qed.

Lemma rapport_jalons_lignes l rapport :
  Projet.rapport_jalons l rapport = rapport +:+ lignes (map ligne_jalon l).
Proof.
  revert rapport. induction l as [|j l IH]; intros rapport.
  - cbn. by rewrite append_nil_r.
  - cbn [Projet.rapport_jalons map]. rewrite IH, append_assoc. reflexivity.
Qed.

Lemma rapport_risques_lignes `{Runtime} l rapport :
  Projet.rapport_risques l rapport = rapport +:+ lignes (map ligne_risque l).
Proof.
  revert rapport. induction l as [|r l IH]; intros rapport.
  - cbn. by rewrite append_nil_r.
  - cbn [Projet.rapport_risques map]. rewrite IH, append_assoc. reflexivity.
Qed.

Lemma rapport_taches_lignes h l rapport texte :
  Projet.rapport_taches h l rapport = Ret texte ->
  exists Ts, Forall2 (fun t T => h !! t = Some T) l Ts /\
             texte = rapport +:+ lignes (map ligne_tache Ts).
Proof.
  revert rapport. induction l as [|t l IH]; intros rapport.
  - cbn. intros [= <-]. exists []. split; [constructor|]. cbn. by rewrite append_nil_r.
  - cbn [Projet.rapport_taches]. unfold deref.
    destruct (h !! t) as [T|] eqn:HT; cbn [mbind res_bind]; [|done].
    intros Hr. destruct (IH _ Hr) as (Ts & HTs & ->).
    exists (T :: Ts). split; [by constructor|].
    rewrite append_assoc. reflexivity.
Qed.

Lemma rapport_chemin_lignes h l rapport texte :
  Projet.rapport_chemin h l rapport = Ret texte ->
  exists Ts, Forall2 (fun t T => h !! t = Some T) l Ts /\
             texte = rapport +:+ lignes (map ligne_chemin Ts).
Proof.
  revert rapport. induction l as [|t l IH]; intros rapport.
  - cbn. intros [= <-]. exists []. split; [constructor|]. cbn. by rewrite append_nil_r.
  - cbn [Projet.rapport_chemin]. unfold deref.
    destruct (h !! t) as [T|] eqn:HT; cbn [mbind res_bind]; [|done].
    intros Hr. destruct (IH _ Hr) as (Ts & HTs & ->).
    exists (T :: Ts). split; [by constructor|].
    rewrite append_assoc. reflexivity.
Qed.

Section Sections_du_rapport.
Context `{Runtime}.

(** X15.  The report is made, in this order, of the four header lines (name,
    version, dates, budget), the team with one line per member, the tasks with
    one line per task, the milestones, the risks and the critical path with
    one line each; within a section the lines follow the order of the list,
    and the task lines are those of the objects the addresses denote. *)
Theorem rapport_par_sections h p texte :
  Projet.generer_rapport h p = Ret texte ->
  exists Ts Cs,
    Forall2 (fun t T => h !! t = Some T) (Projet.taches p) Ts /\
    Forall2 (fun t T => h !! t = Some T) (Projet.chemin_critique p) Cs /\
    texte =
      entete p
      +:+ ("Équipe:" +:+ Projet.nl)
      +:+ lignes (map ligne_membre (Equipe.membres (Projet.equipe p)))
      +:+ ("Tâches:" +:+ Projet.nl)
      +:+ lignes (map ligne_tache Ts)
      +:+ ("Jalons:" +:+ Projet.nl)
      +:+ lignes (map ligne_jalon (Projet.jalons p))
      +:+ ("Risques:" +:+ Projet.nl)
      +:+ lignes (map ligne_risque (Projet.risques p))
      +:+ ("Chemin Critique:" +:+ Projet.nl)
      +:+ lignes (map ligne_chemin Cs).
Proof.
  unfold Projet.generer_rapport.
  destruct (Projet.rapport_taches _ _ _) as [t1| | |] eqn:E1; simpl; try done.
  intros E2.
  apply rapport_taches_lignes in E1 as (Ts & HTs & ->).
  apply rapport_chemin_lignes in E2 as (Cs & HCs & ->).
  exists Ts, Cs. split; [exact HTs|]. split; [exact HCs|].
  rewrite rapport_risques_lignes, rapport_jalons_lignes, rapport_equipe_lignes.
  unfold entete. rewrite !append_assoc. reflexivity.
Qed.
End Sections_du_rapport.

Lemma rapport_par_sections_temoin :
  exists texte Ts Cs,
    @Projet.generer_rapport TestProjet.runtime TestProjet.tas_test
      TestProjet.projet_taches = Ret texte /\
    Forall2 (fun t T => TestProjet.tas_test !! t = Some T)
      (Projet.taches TestProjet.projet_taches) Ts /\
    Forall2 (fun t T => TestProjet.tas_test !! t = Some T)
      (Projet.chemin_critique TestProjet.projet_taches) Cs /\
    texte =
      @entete TestProjet.runtime TestProjet.projet_taches
      +:+ ("Équipe:" +:+ Projet.nl)
      +:+ lignes (map ligne_membre
                    (Equipe.membres (Projet.equipe TestProjet.projet_taches)))
      +:+ ("Tâches:" +:+ Projet.nl)
      +:+ lignes (map ligne_tache Ts)
      +:+ ("Jalons:" +:+ Projet.nl)
      +:+ lignes (map ligne_jalon (Projet.jalons TestProjet.projet_taches))
      +:+ ("Risques:" +:+ Projet.nl)
      +:+ lignes (map (@ligne_risque TestProjet.runtime)
                    (Projet.risques TestProjet.projet_taches))
      +:+ ("Chemin Critique:" +:+ Projet.nl)
      +:+ lignes (map ligne_chemin Cs).
Proof.
  eexists.
  destruct (@rapport_par_sections TestProjet.runtime TestProjet.tas_test
              TestProjet.projet_taches _ eq_refl) as (Ts & Cs & H1 & H2 & H3).
  exists Ts, Cs. split; [reflexivity|]. split; [exact H1|]. split; [exact H2|exact H3].
Defined.

(** ** Registering one more task *)



